(** * multibot: the Mattermost adapter of package bothandler

    A shallow embedding of [pkg/bothandler/mattermost.go].  The file exists
    in two revisions, which differ in the transport they use:

    - the first one (lines 1-456) talks to the server with a bare
      [*http.Client] and builds its JSON bodies by hand;
    - the second one (lines 457-771) goes through [model.Client4] of the
      Mattermost SDK.

    Both are embedded by the same definitions, which take the revision as
    their first argument and branch on it exactly where the two texts differ.

    Conventions of the embedding.

    - Go strings are [string] (sequences of bytes, as in Go).
    - Go maps are [gmap]s; a [*T] that the code tests against [nil] is an
      [option T].
    - A method returns the list of the calls it makes to the outside world
      (handler invocations, HTTP requests, SDK calls, downloads), in program
      order.  Calls to [log] are left out: no statement below is about them.
    - What the outside world answers (the JSON decoder, the HTTP server, the
      file download) is read from an [Env] record, so that every statement
      is quantified over all possible answers.
    - Registered handlers are Go closures; they are embedded as total
      functions.  The handler index recorded in a call is the position of the
      handler in its registration sequence.
    - [ProcessMessages], the receive loop, is not embedded: it dials the
      websocket, stores the connection in [WebSocketConn], and hands every
      event it reads to [handleWebSocketEvent], one at a time.
    - The struct is only ever built by [NewMessagePlatformFromMattermost],
      which always sets [Client] and [User]; these two pointers are therefore
      embedded as always valid.  [stopChan] and [WebSocketConn] are tested
      against [nil] by the code and are embedded as options. *)

From Stdlib Require Import String Ascii List ZArith Lia.
From stdpp Require Import base option strings pretty list gmap sorting.

Local Open Scope string_scope.
Local Open Scope list_scope.

(** ** The parts of the Go runtime and standard library that are used *)

Module Go.

(** What a call can do besides returning: Go panics are values of
    [Panicked]. *)
Inductive Outcome (A : Type) : Type :=
| Returned (a : A)
| Panicked (msg : string).
Arguments Returned {A} a.
Arguments Panicked {A} msg.

Definition bind {A B} (m : Outcome A) (f : A -> Outcome B) : Outcome B :=
  match m with
  | Returned a => f a
  | Panicked msg => Panicked msg
  end.

(** An unbuffered [chan bool] on which nothing is ever sent: all that can
    be observed of it is whether it has been closed. *)
Record Chan : Type := mkChan { closed : bool }.

(** [make(chan bool)] *)
Definition make_chan : Chan := mkChan false.

(** The builtin [close]: closing a nil channel panics, and so does closing
    a channel that is closed already. *)
Definition close (c : option Chan) : Outcome (option Chan) :=
  match c with
  | None => Panicked "close of nil channel"
  | Some ch =>
      if closed ch then Panicked "close of closed channel"
      else Returned (Some (mkChan true))
  end.

(** [strings.Index(s, sep)] for a separator of one byte, returned together
    with the two sides: [cut sep s] is [Some (before, after)] at the first
    occurrence of [sep], [None] when there is none. *)
Fixpoint cut (sep : ascii) (s : string) : option (string * string) :=
  match s with
  | EmptyString => None
  | String c rest =>
      if Ascii.eqb c sep then Some (EmptyString, rest)
      else match cut sep rest with
           | Some (before, after) => Some (String c before, after)
           | None => None
           end
  end.

(** The loop of [strings.genSplit]: at most [n] cuts, the rest of the
    string is the last piece. *)
Fixpoint genSplit (sep : ascii) (n : nat) (s : string) : list string :=
  match n with
  | O => [s]
  | S k =>
      match cut sep s with
      | None => [s]
      | Some (before, after) => before :: genSplit sep k after
      end
  end.

(** [strings.SplitN(s, sep, n)] for a separator of one byte and [n >= 0]:
    no piece at all for [n = 0], otherwise at most [n] pieces, and never
    more than [len(s) + 1]. *)
Definition SplitN (s : string) (sep : ascii) (n : nat) : list string :=
  match n with
  | O => []
  | S _ => genSplit sep (Nat.min n (String.length s + 1) - 1) s
  end.

End Go.

Import Go.

(** [Outcome] is a monad; [x ← m; k] is stdpp's notation for its bind. *)
#[export] Instance Outcome_ret : MRet Outcome := fun A a => Returned a.
#[export] Instance Outcome_bind : MBind Outcome := fun A B f m => bind m f.

(** The Go type [error], by its message. *)
Abbreviation error := string (only parsing).

(** A value decoded from JSON into an [interface{}]. *)
#[warnings="-register-all"]
Inductive JSON : Type :=
| JNull
| JBool (b : bool)
| JNumber (literal : string)
| JString (s : string)
| JArray (items : list JSON)
| JObject (members : list (string * JSON)).

(** ** Data model (mattermost.go, lines 18-62 and 474-492) *)

Module MattermostUser.
Record t : Type := mk { Id : string; Username : string; Email : string }.
End MattermostUser.

Module MattermostTeam.
Record t : Type := mk { Id : string; Name : string }.
End MattermostTeam.

(** [MattermostPost] in the first revision.  The second revision uses
    [model.Post] of the SDK, of which the code reads and writes the same six
    fields. *)
Module MattermostPost.
Record t : Type := mk {
  Id : string;
  ChannelId : string;
  UserId : string;
  Message : string;
  FileIds : list string;
  RootId : string
}.
End MattermostPost.

Module MattermostWebSocketEvent.
Record t : Type := mk { Event : string; Data : gmap string JSON }.
End MattermostWebSocketEvent.

(** A [*websocket.Conn]: all the code does with it after dialling is to
    close it. *)
Record Conn : Type := mkConn { connClosed : bool }.

(** [Close] of [websocket.Conn]: closes the underlying connection; closing it
    again only returns an error, which the callers drop. *)
Definition Conn_Close (c : Conn) : Conn := mkConn true.

(** The two revisions of the file. *)
Inductive Revision : Type :=
| HttpClient   (* lines 1-456: Client is a *http.Client *)
| Client4.     (* lines 457-771: Client is a *model.Client4 *)

(** ** Declarations of package bothandler that the file uses *)

(** Modelled from the spec: the declaration of [Request] is not part of the
    sources at hand.  The code builds it positionally from four strings
    ([Request{content, "mattermost", post.ChannelId, post.UserId}]); the
    field names are the ones of the specification's data model. *)
Record Request : Type := mkRequest {
  text : string;
  platform : string;
  channelId : string;
  userId : string
}.

(** Modelled from the spec: the declaration of [ExtendedMessage] is not
    part of the sources at hand.  It has a text and an optional image
    payload, read by the code as [r.Text] and [r.Image] (a [[]byte] that is
    tested against [nil]) and built as [ExtendedMessage{Text: content}]. *)
Record ExtendedMessage : Type := mkExtendedMessage {
  Text : string;
  Image : option (list Byte.byte)
}.

(** Modelled from the spec: the declaration of [SendOptions] is not part of
    the sources at hand.  The specification names two recognised options, a
    target channel override and a reply-threading reference; an option that
    is absent is [None].  [SendOptions{}] is [noSendOptions]. *)
Record SendOptions : Type := mkSendOptions {
  targetChannel : option string;
  replyTo : option string
}.

Definition noSendOptions : SendOptions := mkSendOptions None None.

(** Modelled from the spec: the handler tables of the package ([Handlers],
    [CatchallHandlers], [CatchallExtendedHandlers], [MsgInputHandlers],
    [ImageHandlers]) are package-level variables declared outside the sources
    at hand, and are taken as a parameter.  The types are the ones the calls
    in [handleWebSocketEvent] require; the two that are indexed are mappings,
    the three that are ranged over are sequences in registration order. *)
Record Registry : Type := mkRegistry {
  Handlers : gmap string (unit -> string);
  CatchallHandlers : list (Request -> string);
  CatchallExtendedHandlers : list (ExtendedMessage -> option ExtendedMessage);
  MsgInputHandlers : gmap string (Request -> string);
  ImageHandlers : list (string -> Request -> string)
}.

(** ** The outside world *)

(** What [Do] of [http.Client] gives back for a request. *)
Inductive HttpResult : Type :=
| DoFailed (err : error)
| DoResponse (StatusCode : Z) (Body : string).

(** The answers of the outside world to the calls of the adapter. *)
Record Env : Type := mkEnv {
  (** [json.Unmarshal([]byte(postData), &post)]: [None] is a decode error *)
  json_Unmarshal : string -> option MattermostPost.t;
  (** [http.NewRequest("POST", url, body)]: [Some err] when the URL does not
      parse *)
  http_NewRequest : string -> option error;
  (** [s.Client.Do(req)] for a POST of a JSON object to [url] *)
  Client_Do : string -> string -> gmap string string -> HttpResult;
  (** [s.Client.CreatePost(ctx, post)]: the error it returns, if any *)
  Client_CreatePost : MattermostPost.t -> option error;
  (** the outcome of the [k]-th [s.downloadFile(fileId, localFilename)] of an
      event: [Some err] is a failed download *)
  downloadFile_result : nat -> string -> string -> option error;
  (** [getMattermostUser] / [client.GetMe] *)
  getMattermostUser : string -> string -> error + MattermostUser.t;
  (** [getMattermostTeams] / [client.GetTeamsForUser] *)
  getMattermostTeams : string -> string -> string -> error + list MattermostTeam.t
}.

(** The calls a method makes, in program order. *)
Inductive Call : Type :=
| CallHandler (key : string)
    (* h() for h = Handlers[key] *)
| CallCatchall (i : nat) (r : Request)
    (* v(r) for the i-th v of CatchallHandlers *)
| CallCatchallExtended (i : nat) (m : ExtendedMessage)
    (* v(m) for the i-th v of CatchallExtendedHandlers *)
| CallMsgInput (command : string) (r : Request)
    (* ih(r) for ih = MsgInputHandlers[command] *)
| CallImage (i : nat) (filename : string) (r : Request)
    (* v(filename, r) for the i-th v of ImageHandlers *)
| CallDownloadFile (fileId localFilename : string)
    (* s.downloadFile(fileId, localFilename) *)
| HttpPost (url authorization : string) (body : gmap string string)
    (* first revision: s.Client.Do(req), req a POST of the JSON object body *)
| CreatePost (post : MattermostPost.t).
    (* second revision: s.Client.CreatePost(ctx, post) *)

(** [for i, x := range l { body }] *)
Fixpoint range {A : Type} (body : nat -> A -> list Call) (i : nat) (l : list A)
  : list Call :=
  match l with
  | [] => []
  | x :: rest => body i x ++ range body (S i) rest
  end.

(** ** The adapter (lines 49-62 and 479-492) *)

Module MattermostMessagePlatform.

(** The struct, without [Client] (its calls are the [HttpPost] and
    [CreatePost] of [Call]) and [KnownUsersLock] (nothing in the file locks
    it). *)
Record t : Type := mk {
  WebSocketConn : option Conn;
  User : MattermostUser.t;
  ChannelId : gmap string string;
  KnownUsers : gmap string MattermostUser.t;
  DefaultChannel : string;
  TeamId : string;
  BotToken : string;
  ServerURL : string;
  stopChan : option Chan
}.

Definition set_stopChan (c : option Chan) (s : t) : t :=
  mk (WebSocketConn s) (User s) (ChannelId s) (KnownUsers s)
     (DefaultChannel s) (TeamId s) (BotToken s) (ServerURL s) c.

Definition set_WebSocketConn (c : option Conn) (s : t) : t :=
  mk c (User s) (ChannelId s) (KnownUsers s)
     (DefaultChannel s) (TeamId s) (BotToken s) (ServerURL s) (stopChan s).

Definition set_DefaultChannel (c : string) (s : t) : t :=
  mk (WebSocketConn s) (User s) (ChannelId s) (KnownUsers s)
     c (TeamId s) (BotToken s) (ServerURL s) (stopChan s).

(** [NewMessagePlatformFromMattermost] (lines 64-102 and 494-533): look up
    the bot's own user, then its teams, and build the struct. *)
Definition NewMessagePlatformFromMattermost (env : Env)
    (mattermostBotToken mattermostURL : string) : error + t :=
  match getMattermostUser env mattermostURL mattermostBotToken with
  | inl err => inl err
  | inr user =>
      match getMattermostTeams env mattermostURL mattermostBotToken
              (MattermostUser.Id user) with
      | inl err => inl err
      | inr teams =>
          let teamId :=
            match teams with
            | team :: _ => MattermostTeam.Id team
            | [] => ""
            end in
          inr {| WebSocketConn := None;
                 User := user;
                 ChannelId := ∅;
                 KnownUsers := ∅;
                 DefaultChannel := "";
                 TeamId := teamId;
                 BotToken := mattermostBotToken;
                 ServerURL := mattermostURL;
                 stopChan := Some make_chan |}
      end
  end.

(** [sendReply] (lines 313-347 and 680-694).  The first revision fills a
    JSON object, adds ["root_id"] when [rootId] is not empty, and posts it,
    unless the request cannot be built; the answer of the server is only
    logged.  The second revision fills a [model.Post] in the same way and
    hands it to [CreatePost]. *)
Definition sendReply (rev : Revision) (env : Env) (s : t)
    (channelId message rootId : string) : list Call :=
  match rev with
  | HttpClient =>
      let postData : gmap string string :=
        <["message" := message]> (<["channel_id" := channelId]> ∅) in
      let postData :=
        if decide (rootId ≠ "") then <["root_id" := rootId]> postData
        else postData in
      let url := ServerURL s +:+ "/api/v4/posts" in
      match http_NewRequest env url with
      | Some _ => []
      | None => [HttpPost url ("Bearer " +:+ BotToken s) postData]
      end
  | Client4 =>
      let post := MattermostPost.mk "" channelId "" message [] "" in
      let post :=
        if decide (rootId ≠ "")
        then MattermostPost.mk "" channelId "" message [] rootId
        else post in
      [CreatePost post]
  end.

(** [sendImageReply] (lines 349-353 and 696-700): the image is dropped. *)
Definition sendImageReply (rev : Revision) (env : Env) (s : t)
    (channelId message : string) (imageData : list Byte.byte)
    (rootId originalContent : string) : list Call :=
  sendReply rev env s channelId message rootId.

(** The root id that [handleWebSocketEvent] passes to every [sendReply] and
    [sendImageReply]: [post.Id] in the first revision (lines 248, 255, 264,
    268, 283, 301), [post.RootId] in the second (lines 615, 622, 631, 635,
    650, 668). *)
Definition rootIdArg (rev : Revision) (post : MattermostPost.t) : string :=
  match rev with
  | HttpClient => MattermostPost.Id post
  | Client4 => MattermostPost.RootId post
  end.

Section Stages.

Variables (rev : Revision) (env : Env) (reg : Registry) (s : t)
          (post : MattermostPost.t).

Let content : string := MattermostPost.Message post.
Let request : Request :=
  mkRequest content "mattermost"
            (MattermostPost.ChannelId post) (MattermostPost.UserId post).
Let reply (message : string) : list Call :=
  sendReply rev env s (MattermostPost.ChannelId post) message
            (rootIdArg rev post).

(** Exact match handlers (lines 244-249 and 611-616). *)
Definition exactStage : list Call :=
  match Handlers reg !! content with
  | Some h =>
      let response := h tt in
      CallHandler content :: reply response
  | None => []
  end.

(** Catchall handlers (lines 251-257 and 618-624). *)
Definition catchallStage : list Call :=
  range (fun i v =>
           let r := v request in
           CallCatchall i request ::
           (if decide (r ≠ "") then reply r else []))
        0 (CatchallHandlers reg).

(** Extended catchall handlers (lines 259-271 and 626-638). *)
Definition extendedStage : list Call :=
  range (fun i v =>
           let m := mkExtendedMessage content None in
           CallCatchallExtended i m ::
           match v m with
           | Some r =>
               (if decide (Text r ≠ "" ∧ Image r = None)
                then reply (Text r) else [])
               ++ match Image r with
                  | Some image =>
                      sendImageReply rev env s (MattermostPost.ChannelId post)
                        (Text r) image (rootIdArg rev post) content
                  | None => []
                  end
           | None => []
           end)
        0 (CatchallExtendedHandlers reg).

(** Input commands (lines 273-286 and 640-653). *)
Definition commandStage : list Call :=
  let sliced_content := SplitN content " " 2 in
  if decide (1 < length sliced_content) then
    match sliced_content with
    | command :: actual_content :: _ =>
        match MsgInputHandlers reg !! command with
        | Some ih =>
            let r := mkRequest actual_content "mattermost"
                       (MattermostPost.ChannelId post)
                       (MattermostPost.UserId post) in
            let response := ih r in
            CallMsgInput command r ::
            (if decide (response ≠ "") then reply response else [])
        | None => []
        end
    | _ => []
    end
  else [].

(** File attachments (lines 288-310 and 655-677).  A failed download
    [continue]s with the next file id. *)
Definition attachmentStage : list Call :=
  if decide (0 < length (MattermostPost.FileIds post)) then
    range (fun k fileId =>
             let filename := "tmp/" +:+ fileId in
             CallDownloadFile fileId filename ::
             match downloadFile_result env k fileId filename with
             | Some _ => []
             | None =>
                 range (fun i v =>
                          let r := v filename request in
                          CallImage i filename request ::
                          (if decide (r ≠ "") then reply r else []))
                       0 (ImageHandlers reg)
             end)
          0 (MattermostPost.FileIds post)
  else [].

End Stages.

(** [handleWebSocketEvent] (lines 218-311 and 585-678). *)
Definition handleWebSocketEvent (rev : Revision) (env : Env) (reg : Registry)
    (s : t) (event : MattermostWebSocketEvent.t) : list Call :=
  if decide (MattermostWebSocketEvent.Event event ≠ "posted") then []
  else
    match MattermostWebSocketEvent.Data event !! "post" with
    | Some (JString postData) =>
        match json_Unmarshal env postData with
        | None => []
        | Some post =>
            (* Ignore messages from the bot itself *)
            if decide (MattermostPost.UserId post = MattermostUser.Id (User s))
            then []
            else
              exactStage rev env reg s post
              ++ catchallStage rev env reg s post
              ++ extendedStage rev env reg s post
              ++ commandStage rev env reg s post
              ++ attachmentStage rev env reg s post
        end
    | _ => []
    end.

(** What [ChannelMessageSend] leaves behind: the adapter after the call, the
    [error] it returns ([None] is [nil]) and the calls it made. *)
Record Sent : Type := mkSent {
  after : t;
  err : option error;
  calls : list Call
}.

(** [ChannelMessageSend] (lines 413-456 and 745-771), on a receiver that may
    be [nil]: every path through the method reads a field of [s] before it
    calls anything, which panics on a nil receiver. *)
Definition ChannelMessageSend (rev : Revision) (env : Env) (s : option t)
    (channel message : string) : Outcome Sent :=
  match s with
  | None => Panicked
      "runtime error: invalid memory address or nil pointer dereference"
  | Some s =>
      let channel :=
        if decide (channel = "") then DefaultChannel s else channel in
      let channelId := channel in
      if decide (channelId = "") then
        Returned (mkSent s (Some "no channel specified") [])
      else
        match rev with
        | HttpClient =>
            let postData : gmap string string :=
              <["message" := message]> (<["channel_id" := channelId]> ∅) in
            let url := ServerURL s +:+ "/api/v4/posts" in
            match http_NewRequest env url with
            | Some e => Returned (mkSent s (Some e) [])
            | None =>
                let authorization := "Bearer " +:+ BotToken s in
                let call := HttpPost url authorization postData in
                match Client_Do env url authorization postData with
                | DoFailed e => Returned (mkSent s (Some e) [call])
                | DoResponse StatusCode body =>
                    if decide (StatusCode ≠ 201%Z) then
                      Returned
                        (mkSent s
                           (Some ("failed to send message to channel "
                                  +:+ channel +:+ ", status "
                                  +:+ pretty StatusCode +:+ ": " +:+ body))
                           [call])
                    else Returned (mkSent s None [call])
                end
            end
        | Client4 =>
            let post := MattermostPost.mk "" channelId "" message [] "" in
            match Client_CreatePost env post with
            | Some e =>
                Returned
                  (mkSent s
                     (Some ("failed to send message to channel "
                            +:+ channel +:+ ": " +:+ e))
                     [CreatePost post])
            | None => Returned (mkSent s None [CreatePost post])
            end
        end
  end.

(** [SendWithOptions] (lines 394-402 and 726-734): [options] is not read;
    the error of [ChannelMessageSend] is only logged. *)
Definition SendWithOptions (rev : Revision) (env : Env) (s : option t)
    (text : string) (options : SendOptions) : Outcome (list Call) :=
  match s with
  | None => Returned []
  | Some _ =>
      r ← ChannelMessageSend rev env s "" text;
      Returned (calls r)
  end.

(** [Send] (lines 387-392 and 719-724). *)
Definition Send (rev : Revision) (env : Env) (s : option t) (text : string)
  : Outcome (list Call) :=
  match s with
  | None => Returned []
  | Some _ => SendWithOptions rev env s text noSendOptions
  end.

(** [Close] (lines 404-411 and 736-743), the same text in both revisions.
    The adapter it returns is the one the next call sees. *)
Definition Close (s : t) : Outcome t :=
  s ← match stopChan s with
      | Some _ =>
          c ← close (stopChan s);
          Returned (set_stopChan c s)
      | None => Returned s
      end;
  match WebSocketConn s with
  | Some conn => Returned (set_WebSocketConn (Some (Conn_Close conn)) s)
  | None => Returned s
  end.

End MattermostMessagePlatform.

Import MattermostMessagePlatform.

(** ** What the statements observe of a run *)

(** [event] is a ["posted"] event whose ["post"] entry is a string that
    decodes to [post] (lines 219-233 and 586-600). *)
Definition inbound (env : Env) (event : MattermostWebSocketEvent.t)
    (post : MattermostPost.t) : Prop :=
  MattermostWebSocketEvent.Event event = "posted"
  ∧ ∃ postData,
      MattermostWebSocketEvent.Data event !! "post" = Some (JString postData)
      ∧ json_Unmarshal env postData = Some post.

(** The [Request] every catchall and image handler receives for [post]. *)
Definition requestOf (post : MattermostPost.t) : Request :=
  mkRequest (MattermostPost.Message post) "mattermost"
            (MattermostPost.ChannelId post) (MattermostPost.UserId post).

(** The channel a post goes to; [None] for a call that is not a post. *)
Definition postedChannel (c : Call) : option string :=
  match c with
  | HttpPost _ _ body => body !! "channel_id"
  | CreatePost post => Some (MattermostPost.ChannelId post)
  | _ => None
  end.

(** The text of a post. *)
Definition postedMessage (c : Call) : option string :=
  match c with
  | HttpPost _ _ body => body !! "message"
  | CreatePost post => Some (MattermostPost.Message post)
  | _ => None
  end.

(** The root id a post is threaded under, [""] for a post that carries
    none; [None] for a call that is not a post. *)
Definition postedRootId (c : Call) : option string :=
  match c with
  | HttpPost _ _ body => Some (default "" (body !! "root_id"))
  | CreatePost post => Some (MattermostPost.RootId post)
  | _ => None
  end.

(** Projections of a run on the invocations of one kind. *)
Definition catchallCall (c : Call) : option (nat * Request) :=
  match c with CallCatchall i r => Some (i, r) | _ => None end.

Definition extendedCall (c : Call) : option (nat * ExtendedMessage) :=
  match c with CallCatchallExtended i m => Some (i, m) | _ => None end.

Definition downloadCall (c : Call) : option (string * string) :=
  match c with CallDownloadFile f n => Some (f, n) | _ => None end.

(** The stage of [handleWebSocketEvent] a call belongs to, numbered as in
    the dispatcher's description (1 is the self-filter); posts, which every
    stage can make, are numbered 0. *)
Definition stageOf (c : Call) : nat :=
  match c with
  | CallHandler _ => 2
  | CallCatchall _ _ => 3
  | CallCatchallExtended _ _ => 4
  | CallMsgInput _ _ => 5
  | CallDownloadFile _ _ | CallImage _ _ _ => 6
  | HttpPost _ _ _ | CreatePost _ => 0
  end.

(** [c] is a call of some [sendReply] for [post]. *)
Definition isReplyTo (rev : Revision) (env : Env)
    (s : MattermostMessagePlatform.t) (post : MattermostPost.t) (c : Call)
  : Prop :=
  ∃ message,
    c ∈ sendReply rev env s (MattermostPost.ChannelId post) message
          (rootIdArg rev post).

(** Every call of stage [n] is an invocation that belongs to the stage or
    a reply to [post]. *)
Definition fromStage (rev : Revision) (env : Env)
    (s : MattermostMessagePlatform.t) (post : MattermostPost.t) (n : nat)
    (c : Call) : Prop :=
  stageOf c = n ∨ isReplyTo rev env s post c.

(** [a] has no occurrence of the byte [sep]. *)
Definition free_of (sep : ascii) (a : string) : Prop :=
  ∀ x y, a ≠ x +:+ String sep y.

(** [Close()] called twice in succession. *)
Definition CloseTwice (s : MattermostMessagePlatform.t)
  : Outcome MattermostMessagePlatform.t :=
  s ← Close s; Close s.

(** ** Concrete instances, used to run the definitions *)

Definition exampleBot : MattermostUser.t :=
  MattermostUser.mk "bot1" "multibot" "multibot@example.org".

(** A world in which every post payload decodes to [post], the server
    accepts everything, and the [k]-th download fails when [failing k]. *)
Definition exampleEnv (post : MattermostPost.t) (failing : nat -> bool) : Env :=
  {| json_Unmarshal := fun _ => Some post;
     http_NewRequest := fun _ => None;
     Client_Do := fun _ _ _ => DoResponse 201 "";
     Client_CreatePost := fun _ => None;
     downloadFile_result :=
       fun k _ _ => if failing k then Some "failed to download file" else None;
     getMattermostUser := fun _ _ => inr exampleBot;
     getMattermostTeams := fun _ _ _ => inr [] |}.

Definition noFailure : nat -> bool := fun _ => false.

(** The adapter as [sendmsg] sets it up, with MATTERMOST_CHANNEL=town. *)
Definition exampleAdapter : MattermostMessagePlatform.t :=
  {| WebSocketConn := None;
     User := exampleBot;
     ChannelId := ∅;
     KnownUsers := ∅;
     DefaultChannel := "town";
     TeamId := "";
     BotToken := "tok";
     ServerURL := "http://mm";
     stopChan := Some make_chan |}.

Definition exampleEvent : MattermostWebSocketEvent.t :=
  MattermostWebSocketEvent.mk "posted" (<["post" := JString "{}"]> ∅).

(** A top-level post [p1] by user [u1] in channel [c1]. *)
Definition examplePost (message : string) (fileIds : list string)
  : MattermostPost.t :=
  MattermostPost.mk "p1" "c1" "u1" message fileIds "".

Definition exampleRegistry : Registry :=
  {| Handlers :=
       <["ping" := fun _ => ""]> (<["hello" := fun _ => "World!"]> ∅);
     CatchallHandlers :=
       [fun r => if decide (text r = "o/") then "\o" else ""];
     CatchallExtendedHandlers := [fun m => None];
     MsgInputHandlers := <["!foo" := fun r => "foo: " +:+ text r]> ∅;
     ImageHandlers := [fun filename r => "got " +:+ filename] |}.

(** * The rest of the code *)

(** ** More of the Go standard library *)

(** [strings.HasPrefix(s, prefix)] *)
Fixpoint HasPrefix (s prefix : string) {struct prefix} : bool :=
  match prefix with
  | EmptyString => true
  | String p prefix' =>
      match s with
      | EmptyString => false
      | String c s' => if Ascii.eqb c p then HasPrefix s' prefix' else false
      end
  end.

(** [s[n:]], for [n <= len(s)] *)
Fixpoint skip (n : nat) (s : string) : string :=
  match n, s with
  | O, _ => s
  | S k, String _ rest => skip k rest
  | S _, EmptyString => EmptyString
  end.

(** The loop of [strings.Replace] for a non-empty [old]: the first [n]
    occurrences of [old], found from the left and not overlapping, are
    replaced by [new].  [fuel] bounds the number of bytes inspected. *)
Fixpoint replaceLoop (fuel : nat) (s old new : string) (n : nat) : string :=
  match fuel, n with
  | O, _ | _, O => s
  | S fuel', S n' =>
      if HasPrefix s old then
        new +:+ replaceLoop fuel' (skip (String.length old) s) old new n'
      else
        match s with
        | EmptyString => EmptyString
        | String c rest => String c (replaceLoop fuel' rest old new n)
        end
  end.

(** [strings.Replace(s, old, new, n)] for a non-empty [old] and [n >= 0]. *)
Definition Replace (s old new : string) (n : nat) : string :=
  replaceLoop (S (String.length s)) s old new n.

(** [strings.Contains(s, substr)] *)
Fixpoint Contains (s substr : string) : bool :=
  HasPrefix s substr
  || match s with
     | EmptyString => false
     | String _ rest => Contains rest substr
     end.


(** ** [ProcessMessages] (mattermost.go, lines 168-216 and 535-583) *)

(** What one [conn.ReadJSON(&event)] gives: an event, the error of a normal
    closure ([websocket.IsCloseError(err, websocket.CloseNormalClosure)]),
    or any other error. *)
Inductive ReadResult : Type :=
| ReadEvent (event : MattermostWebSocketEvent.t)
| ReadClosedNormally
| ReadFailed (err : error).

(** The websocket side of the outside world. *)
Record Socket : Type := mkSocket {
  (** [dialer.Dial(wsURL, headers)], [headers] holding the Authorization:
      the error, if any *)
  Dial : string -> string -> option error;
  (** [conn.WriteJSON(authMsg)] for the token in [authMsg]: the error, if
      any *)
  WriteJSON : string -> option error;
  (** what the successive calls of [conn.ReadJSON] return; when the list is
      used up the next read has not returned yet *)
  reads : list ReadResult
}.

(** What [ProcessMessages] does, in program order. *)
Inductive Step : Type :=
| StepDial (wsURL authorization : string)
| StepWriteAuth (token : string)
| StepRead
| StepSleep (seconds : nat)
| StepHandle (event : MattermostWebSocketEvent.t) (made : list Call)
| StepCloseConn.

(** How a run of [ProcessMessages] ends; [StillReading] is a run that is
    blocked in [ReadJSON]. *)
Inductive Exit : Type :=
| DialFailed
| AuthFailed
| StopSignalled
| ClosedByPeer
| StillReading.

(** [case <-s.stopChan:] of the [select] is ready exactly when the channel
    has been closed: nothing is ever sent on it, and a receive from a nil
    channel never is ready. *)
Definition stopSignalled (s : MattermostMessagePlatform.t) : bool :=
  match stopChan s with
  | Some ch => closed ch
  | None => false
  end.

(** The [for { select { ... } }] loop (lines 197-215 and 564-582). *)
Fixpoint receiveLoop (rev : Revision) (env : Env) (reg : Registry)
    (s : MattermostMessagePlatform.t) (rs : list ReadResult)
  : list Step * Exit :=
  if stopSignalled s then ([], StopSignalled)
  else
    match rs with
    | [] => ([StepRead], StillReading)
    | ReadClosedNormally :: _ => ([StepRead], ClosedByPeer)
    | ReadFailed _ :: rest =>
        let (steps, exit) := receiveLoop rev env reg s rest in
        (StepRead :: StepSleep 5 :: steps, exit)
    | ReadEvent event :: rest =>
        let (steps, exit) := receiveLoop rev env reg s rest in
        (StepRead
           :: StepHandle event (handleWebSocketEvent rev env reg s event)
           :: steps,
         exit)
    end.

(** The websocket URL (lines 170 and 537). *)
Definition wsURL (s : MattermostMessagePlatform.t) : string :=
  Replace (ServerURL s) "http" "ws" 1 +:+ "/api/v4/websocket".

(** [ProcessMessages]: the steps, how the run ends, and the adapter it
    leaves.  [defer conn.Close()] runs on every return after a successful
    dial. *)
Definition ProcessMessages (rev : Revision) (env : Env) (reg : Registry)
    (sock : Socket) (s : MattermostMessagePlatform.t)
  : list Step * Exit * MattermostMessagePlatform.t :=
  let authorization := "Bearer " +:+ BotToken s in
  let dial := StepDial (wsURL s) authorization in
  match Dial sock (wsURL s) authorization with
  | Some _ => ([dial], DialFailed, s)
  | None =>
      let conn := mkConn false in
      let s := set_WebSocketConn (Some conn) s in
      let closed := set_WebSocketConn (Some (Conn_Close conn)) s in
      match WriteJSON sock (BotToken s) with
      | Some _ =>
          ([dial; StepWriteAuth (BotToken s); StepCloseConn], AuthFailed,
           closed)
      | None =>
          let (steps, exit) := receiveLoop rev env reg s (reads sock) in
          match exit with
          | StillReading =>
              (dial :: StepWriteAuth (BotToken s) :: steps, exit, s)
          | _ =>
              (dial :: StepWriteAuth (BotToken s) :: steps ++ [StepCloseConn],
               exit, closed)
          end
      end
  end.

(** The events a run has handled, and all the calls it made. *)
Definition handledEvent (st : Step) : option MattermostWebSocketEvent.t :=
  match st with StepHandle event _ => Some event | _ => None end.

Definition callsOf (st : Step) : list Call :=
  match st with StepHandle _ made => made | _ => [] end.

Definition isRead (st : Step) : bool :=
  match st with StepRead => true | _ => false end.

(** The reads a loop consumes: those before the first normal closure. *)
Fixpoint beforeClosure (rs : list ReadResult) : list ReadResult :=
  match rs with
  | [] => []
  | ReadClosedNormally :: _ => []
  | r :: rest => r :: beforeClosure rest
  end.

Definition isClosure (r : ReadResult) : bool :=
  match r with ReadClosedNormally => true | _ => false end.

Definition eventOf (r : ReadResult) : option MattermostWebSocketEvent.t :=
  match r with ReadEvent event => Some event | _ => None end.

(** ** [downloadFile] (lines 355-385 and 702-717) *)

(** What a GET gives back: [body] is what [io.ReadAll(resp.Body)]
    returns. *)
Inductive GetResult : Type :=
| GetFailed (err : error)
| GetResponse (StatusCode : Z) (body : error + list Byte.byte).

(** The server and the file system, as [downloadFile] sees them. *)
Record Storage : Type := mkStorage {
  (** [http.NewRequest("GET", url, nil)] *)
  get_NewRequest : string -> option error;
  (** first revision: [s.Client.Do(req)] for a GET of [url] *)
  Client_Get : string -> string -> GetResult;
  (** second revision: [s.Client.GetFile(ctx, fileId)] *)
  Client_GetFile : string -> error + list Byte.byte;
  (** [os.Create(name)]: the error, if any; on success the file exists and
      is empty *)
  os_Create : string -> option error;
  (** [out.Write(data)]: [None] when all of [data] is written, else the
      number of bytes written and the error *)
  file_Write : string -> list Byte.byte -> option (nat * error)
}.

(** The first half of [downloadFile]: the bytes of the file, or the error
    that is returned. *)
Definition fetchFile (rev : Revision) (st : Storage)
    (s : MattermostMessagePlatform.t) (fileId : string)
  : error + list Byte.byte :=
  match rev with
  | HttpClient =>
      let url := ServerURL s +:+ "/api/v4/files/" +:+ fileId in
      match get_NewRequest st url with
      | Some e => inl e
      | None =>
          match Client_Get st url ("Bearer " +:+ BotToken s) with
          | GetFailed e => inl e
          | GetResponse StatusCode body =>
              if decide (StatusCode ≠ 200%Z) then
                inl ("failed to download file, status " +:+ pretty StatusCode)
              else body
          end
      end
  | Client4 => Client_GetFile st fileId
  end.

(** [downloadFile], on the files that exist: the error it returns and the
    files it leaves. *)
Definition downloadFile (rev : Revision) (st : Storage)
    (s : MattermostMessagePlatform.t) (fileId localFilename : string)
    (files : gmap string (list Byte.byte))
  : option error * gmap string (list Byte.byte) :=
  match fetchFile rev st s fileId with
  | inl e => (Some e, files)
  | inr data =>
      match os_Create st localFilename with
      | Some e => (Some e, files)
      | None =>
          match file_Write st localFilename data with
          | None => (None, <[localFilename := data]> files)
          | Some (n, e) => (Some e, <[localFilename := take n data]> files)
          end
      end
  end.

(** ** The [sendmsg] command (package cmd, [Run], lines 68-171) *)


(** What the Mattermost block of [Run] (lines 123-139) comes to. *)
Inductive Setup : Type :=
| NotStarted
| Fatal (err : error)
| Started (s : MattermostMessagePlatform.t).

(** The Mattermost block of [Run]: the adapter that is registered and whose
    [ProcessMessages] is started, if any.  [getenv] is [os.Getenv]. *)
Definition sendmsgMattermost (env : Env) (getenv : string -> string)
    (platform : string) : Setup :=
  if decide (platform = "mattermost" ∨ platform = "all") then
    let mattermostBotToken := getenv "MATTERMOST_BOT_TOKEN" in
    let mattermostURL := getenv "MATTERMOST_URL" in
    if decide (mattermostBotToken ≠ "" ∧ mattermostURL ≠ "") then
      match NewMessagePlatformFromMattermost env mattermostBotToken
              mattermostURL with
      | inl e => Fatal e
      | inr s =>
          let mattermost_channel := getenv "MATTERMOST_CHANNEL" in
          Started (if decide (mattermost_channel ≠ "")
                   then set_DefaultChannel mattermost_channel s
                   else s)
      end
    else NotStarted
  else NotStarted.

(** ** The Discord bot of main.go *)

Module Discord.

(** What [messageCreate] reads of [m *discordgo.MessageCreate]:
    [m.Author.ID], [m.Content], [m.ChannelID]. *)
Record Message : Type := mkMessage {
  AuthorID : string;
  Content : string;
  ChannelID : string
}.

(** [StoicResponse] (lines 41-46) *)
Record StoicResponse : Type := mkStoicResponse {
  Id : string;
  Body : string;
  Author_id : Z;
  Author : string
}.

(** The calls of [messageCreate]. *)
Inductive Action : Type :=
| Say (channelID content : string)
    (* s.ChannelMessageSend(channelID, content) *)
| Fetch (url : string).
    (* http.Get(url) *)

(** The web, as [messageCreate] sees it. *)
Record Web : Type := mkWeb {
  (** [http.Get(url)]: the error or the body of the response *)
  http_Get : string -> error + string;
  (** [json.NewDecoder(resp.Body).Decode(&respBody)] *)
  Decode : string -> error + StoicResponse
}.

Definition stoicURL : string :=
  "https://stoicquotesapi.com/v1/api/quotes/random".

(** [messageCreate] (lines 48-83); [self] is [s.State.User.ID]. *)
Definition messageCreate (web : Web) (self : string) (m : Message)
  : list Action :=
  if decide (AuthorID m = self) then []
  else
    (if decide (Content m = "hello") then [Say (ChannelID m) "World!"]
     else [])
    ++ (if decide (Content m = "o/") then [Say (ChannelID m) "\o"] else [])
    ++ (if decide (Content m = "!stoic") then
          Fetch stoicURL ::
          match http_Get web stoicURL with
          | inl _ => []
          | inr body =>
              match Decode web body with
              | inl _ => []
              | inr respBody =>
                  let message :=
                    Body respBody +:+ " — " +:+ Author respBody in
                  [Say (ChannelID m) message]
              end
          end
        else []).

Definition said (a : Action) : option (string * string) :=
  match a with
  | Say channelID content => Some (channelID, content)
  | _ => None
  end.

Definition fetched (a : Action) : option string :=
  match a with Fetch url => Some url | _ => None end.

End Discord.

(** ** More observations of a run of the dispatcher *)

(** The order of the stages, on calls: posts fit anywhere. *)
Definition stageOrder (c1 c2 : Call) : Prop :=
  stageOf c1 = 0 ∨ stageOf c2 = 0 ∨ (stageOf c1 ≤ stageOf c2)%nat.

Definition isPost (c : Call) : bool :=
  match c with HttpPost _ _ _ | CreatePost _ => true | _ => false end.

Definition isInvocation (c : Call) : bool :=
  match c with
  | CallHandler _ | CallCatchall _ _ | CallCatchallExtended _ _
  | CallMsgInput _ _ | CallImage _ _ _ => true
  | _ => false
  end.

(** What the handler that [c] invokes returns: the string that the
    dispatcher then hands to [sendReply] (for an extended handler, the text
    of its result).  [None] for a call that invokes no registered handler, and
    for an extended handler without result. *)
Definition outputOf (reg : Registry) (c : Call) : option string :=
  match c with
  | CallHandler key => (fun h => h tt) <$> Handlers reg !! key
  | CallCatchall i r => (fun v => v r) <$> CatchallHandlers reg !! i
  | CallCatchallExtended i m =>
      CatchallExtendedHandlers reg !! i ≫= fun v => Text <$> v m
  | CallMsgInput command r =>
      (fun ih => ih r) <$> MsgInputHandlers reg !! command
  | CallImage i filename r =>
      (fun v => v filename r) <$> ImageHandlers reg !! i
  | _ => None
  end.

(** Every post of [l] comes right after the invocation that caused it and
    carries what that handler returned; [prev] is the call before [l]. *)
Fixpoint repliesFollow (reg : Registry) (prev : option Call) (l : list Call)
  : Prop :=
  match l with
  | [] => True
  | c :: rest =>
      (isPost c = true →
       ∃ d message,
         prev = Some d
         ∧ isInvocation d = true
         ∧ outputOf reg d = Some message
         ∧ postedMessage c = Some message)
      ∧ repliesFollow reg (Some c) rest
  end.

Definition exactCall (c : Call) : option string :=
  match c with CallHandler key => Some key | _ => None end.

Definition imageCall (c : Call) : option (nat * string) :=
  match c with CallImage i filename _ => Some (i, filename) | _ => None end.

(** The image handler invocations that a message with the file ids [ids]
    leads to, [k] being the position of the first of them: for each file
    whose download succeeds, every handler in turn. *)
Definition imageRuns (env : Env) (reg : Registry) (ids : list string)
  : list (nat * string) :=
  mjoin (imap (fun k fileId =>
                 let filename := "tmp/" +:+ fileId in
                 match downloadFile_result env k fileId filename with
                 | Some _ => []
                 | None => imap (fun i _ => (i, filename)) (ImageHandlers reg)
                 end) ids).

(** The posts and the handler invocations of a run. *)
Definition posts (l : list Call) : list Call := filter (fun c => isPost c) l.

Definition invocations (l : list Call) : list Call :=
  filter (fun c => isInvocation c) l.

(** A handler table that stays silent on [post]: the text is no exact
    key, and every handler that the message reaches returns the empty
    string, or no result at all. *)
Definition silentOn (reg : Registry) (post : MattermostPost.t) : Prop :=
  Handlers reg !! MattermostPost.Message post = None
  ∧ Forall (fun v => v (requestOf post) = "") (CatchallHandlers reg)
  ∧ Forall (fun v =>
              match
                v (mkExtendedMessage (MattermostPost.Message post) None)
              with
              | Some r => Text r = "" ∧ Image r = None
              | None => True
              end)
      (CatchallExtendedHandlers reg)
  ∧ (∀ command rest ih,
       cut " " (MattermostPost.Message post) = Some (command, rest) →
       MsgInputHandlers reg !! command = Some ih →
       ih (mkRequest rest "mattermost" (MattermostPost.ChannelId post)
             (MattermostPost.UserId post)) = "")
  ∧ Forall (fun v =>
              Forall (fun fileId => v ("tmp/" +:+ fileId) (requestOf post) = "")
                (MattermostPost.FileIds post))
      (ImageHandlers reg).

(** * Properties *)

(** ** Running the definitions *)

Example SplitN_two_words :
  SplitN "!foo bar baz" " " 2 = ["!foo"; "bar baz"].
Proof. reflexivity. Qed.

Example SplitN_one_word : SplitN "!foo" " " 2 = ["!foo"].
Proof. reflexivity. Qed.

Example SplitN_empty : SplitN "" " " 2 = [""].
Proof. reflexivity. Qed.

Example SplitN_trailing_space : SplitN "!foo " " " 2 = ["!foo"; ""].
Proof. reflexivity. Qed.

Example exampleEvent_inbound post failing :
  inbound (exampleEnv post failing) exampleEvent post.
Proof. split; [reflexivity | by exists "{}"]. Qed.

Example hello_world :
  handleWebSocketEvent Client4 (exampleEnv (examplePost "hello" []) noFailure)
    exampleRegistry exampleAdapter exampleEvent
  = [CallHandler "hello";
     CreatePost (MattermostPost.mk "" "c1" "" "World!" [] "");
     CallCatchall 0 (mkRequest "hello" "mattermost" "c1" "u1");
     CallCatchallExtended 0 (mkExtendedMessage "hello" None)].
Proof. vm_compute. reflexivity. Qed.

(** ** The dispatcher, stage by stage *)

Section Dispatch.

Context (rev : Revision) (env : Env) (reg : Registry)
        (s : MattermostMessagePlatform.t).

(** An event that does not carry a post, or whose post does not decode, is
    dropped. *)
Lemma handle_not_posted event :
  MattermostWebSocketEvent.Event event ≠ "posted" →
  handleWebSocketEvent rev env reg s event = [].
Proof.
  intros Hne. unfold handleWebSocketEvent.
  destruct (decide _) as [_ | Hn]; [reflexivity | contradiction].
Qed.

(** The self-filter (lines 235-238 and 602-605). *)
Lemma handle_self event post :
  inbound env event post →
  MattermostPost.UserId post = MattermostUser.Id (User s) →
  handleWebSocketEvent rev env reg s event = [].
Proof.
  intros (Hev & postData & Hdata & Hdec) Hself.
  unfold handleWebSocketEvent.
  destruct (decide _) as [Hn | _]; [reflexivity |].
  rewrite Hdata, Hdec.
  destruct (decide _) as [_ | Hn]; [reflexivity | contradiction].
Qed.

(** A message of somebody else goes through the five stages, in order. *)
Lemma handle_other event post :
  inbound env event post →
  MattermostPost.UserId post ≠ MattermostUser.Id (User s) →
  handleWebSocketEvent rev env reg s event
  = exactStage rev env reg s post
    ++ catchallStage rev env reg s post
    ++ extendedStage rev env reg s post
    ++ commandStage rev env reg s post
    ++ attachmentStage rev env reg s post.
Proof.
  intros (Hev & postData & Hdata & Hdec) Hother.
  unfold handleWebSocketEvent.
  destruct (decide _) as [Hn | _]; [contradiction |].
  rewrite Hdata, Hdec.
  destruct (decide _) as [Hn | _]; [contradiction | reflexivity].
Qed.

End Dispatch.

(** ** C7: the self-filter *)

(** C7.  An inbound message whose sender is the bot itself stops the
    dispatcher before any stage: the run makes no call at all, so no handler
    of any kind is invoked and no reply is sent, whatever the content, the
    registered handlers and the attachments are. *)
Theorem self_message_is_ignored rev env reg s event post :
  inbound env event post →
  MattermostPost.UserId post = MattermostUser.Id (User s) →
  handleWebSocketEvent rev env reg s event = [].
Proof. apply handle_self. Qed.

Lemma self_message_is_ignored_witness :
  let post := MattermostPost.mk "p9" "c1" "bot1" "hello" ["f1"] "" in
  handleWebSocketEvent HttpClient (exampleEnv post noFailure)
    exampleRegistry exampleAdapter exampleEvent = [].
Proof.
  intros post.
  apply (self_message_is_ignored HttpClient (exampleEnv post noFailure)
           exampleRegistry exampleAdapter exampleEvent post).
  - apply exampleEvent_inbound.
  - reflexivity.
Defined.

(** ** C10: [Send] and [SendWithOptions] on a nil adapter *)

(** Without the guard the call would not survive: *)
Lemma ChannelMessageSend_nil rev env channel message :
  ChannelMessageSend rev env None channel message
  = Panicked
      "runtime error: invalid memory address or nil pointer dereference".
Proof. reflexivity. Qed.

(** C10.  On a nil adapter pointer [Send] and [SendWithOptions] return at
    once: they do not panic and make no call, for every text and every
    options bag, in both revisions. *)
Theorem Send_on_nil_adapter rev env text options :
  Send rev env None text = Returned []
  ∧ SendWithOptions rev env None text options = Returned [].
Proof. split; reflexivity. Qed.

(** ** C1: [Close] twice *)

(** The first [Close] of an adapter with an open stop channel and no
    connection returns, and leaves the channel closed. *)
Lemma Close_once s :
  stopChan s = Some make_chan →
  WebSocketConn s = None →
  Close s = Returned (set_stopChan (Some (mkChan true)) s).
Proof.
  intros Hc Hw. unfold Close. rewrite Hc. simpl. rewrite Hw. reflexivity.
Qed.

(** Whatever the state of the connection, a second [Close] reaches
    [close(s.stopChan)] on a channel that is closed already. *)
Lemma CloseTwice_panics s :
  is_Some (stopChan s) →
  CloseTwice s = Panicked "close of closed channel".
Proof.
  intros [[[]] Hc]; unfold CloseTwice, Close; rewrite Hc; simpl.
  - reflexivity.
  - destruct (WebSocketConn s); reflexivity.
Qed.

(** C1 (fails on the code).  On every adapter that
    [NewMessagePlatformFromMattermost] returns, calling [Close()] twice in
    succession panics with "close of closed channel": the guard of [Close]
    tests [stopChan] against nil, and a closed channel is not nil. *)
Theorem Close_twice_panics env token url s :
  NewMessagePlatformFromMattermost env token url = inr s →
  CloseTwice s = Panicked "close of closed channel".
Proof.
  intros Hnew. apply CloseTwice_panics.
  unfold NewMessagePlatformFromMattermost in Hnew.
  destruct (getMattermostUser env url token) as [e | user]; [discriminate |].
  destruct (getMattermostTeams env url token _) as [e | teams];
    [discriminate |].
  injection Hnew as <-. simpl. eauto.
Qed.

Lemma Close_twice_panics_witness :
  ∃ s,
    NewMessagePlatformFromMattermost (exampleEnv (examplePost "" []) noFailure)
      "tok" "http://mm" = inr s
    ∧ WebSocketConn s = None
    ∧ CloseTwice s = Panicked "close of closed channel".
Proof.
  eexists. split; [reflexivity |]. split; [reflexivity |].
  apply (Close_twice_panics (exampleEnv (examplePost "" []) noFailure)
           "tok" "http://mm").
  reflexivity.
Defined.

(** ** The shape of a run *)

Section Range.

Context {A : Type}.
Implicit Types (body : nat → A → list Call) (l : list A).

Lemma Forall_range (P : Call → Prop) body l i :
  (∀ k x, l !! k = Some x → Forall P (body (i + k) x)) →
  Forall P (range body i l).
Proof.
  revert i. induction l as [| x l IH]; intros i Hbody; simpl.
  - constructor.
  - apply Forall_app. split.
    + specialize (Hbody 0 x eq_refl). by rewrite Nat.add_0_r in Hbody.
    + apply IH. intros k y Hk.
      specialize (Hbody (S k) y Hk). by rewrite Nat.add_succ_r in Hbody.
Qed.

Lemma elem_of_range body l i k x c :
  l !! k = Some x → c ∈ body (i + k) x → c ∈ range body i l.
Proof.
  revert i k. induction l as [| y l IH]; intros i k Hk Hc; [done |].
  simpl. apply elem_of_app. destruct k as [| k]; simpl in Hk.
  - injection Hk as ->. left. by rewrite Nat.add_0_r in Hc.
  - right. apply (IH (S i) k Hk). by rewrite Nat.add_succ_r in Hc.
Qed.

(** A loop whose body makes exactly one call that [f] sees makes one such
    call per element, in the order of the elements. *)
Lemma omap_range_one {B} (f : Call → option B) (g : nat → A → B) body l i :
  (∀ k x, omap f (body k x) = [g k x]) →
  omap f (range body i l) = imap (fun k x => g (i + k) x) l.
Proof.
  intros Hbody. revert i. induction l as [| x l IH]; intros i; [done |].
  simpl. rewrite omap_app, Hbody, IH. simpl. rewrite Nat.add_0_r.
  f_equal. apply imap_ext. intros k y _. simpl. f_equal. lia.
Qed.

End Range.

Lemma omap_unseen {B} (f : Call → option B) (l : list Call) :
  Forall (fun c => f c = None) l → omap f l = [].
Proof.
  induction 1 as [| c l Hc _ IH]; [done |]. simpl. by rewrite Hc.
Qed.

Section Shape.

Context (rev : Revision) (env : Env) (reg : Registry)
        (s : MattermostMessagePlatform.t) (post : MattermostPost.t).

Lemma sendReply_posts channelId message rootId :
  Forall (fun c => stageOf c = 0) (sendReply rev env s channelId message rootId).
Proof.
  unfold sendReply. destruct rev.
  - destruct (http_NewRequest env _); repeat constructor.
  - repeat constructor.
Qed.

Lemma reply_fromStage n message :
  Forall (fromStage rev env s post n)
    (sendReply rev env s (MattermostPost.ChannelId post) message
       (rootIdArg rev post)).
Proof. apply Forall_forall. intros c Hc. right. by exists message. Qed.

Lemma exactStage_shape :
  Forall (fromStage rev env s post 2) (exactStage rev env reg s post).
Proof.
  unfold exactStage. destruct (Handlers reg !! _); [| constructor].
  constructor; [by left | apply reply_fromStage].
Qed.

Lemma catchallStage_shape :
  Forall (fromStage rev env s post 3) (catchallStage rev env reg s post).
Proof.
  apply Forall_range. intros k v _.
  constructor; [by left |].
  case_decide; [apply reply_fromStage | constructor].
Qed.

Lemma extendedStage_shape :
  Forall (fromStage rev env s post 4) (extendedStage rev env reg s post).
Proof.
  apply Forall_range. intros k v _.
  constructor; [by left |].
  destruct (v _) as [r |]; [| constructor].
  apply Forall_app. split.
  - case_decide; [apply reply_fromStage | constructor].
  - destruct (Image r); [apply reply_fromStage | constructor].
Qed.

Lemma commandStage_shape :
  Forall (fromStage rev env s post 5) (commandStage rev env reg s post).
Proof.
  unfold commandStage. case_decide; [| constructor].
  destruct (SplitN _ _ _) as [| command [| actual_content rest]];
    try constructor.
  destruct (MsgInputHandlers reg !! command); [| constructor].
  constructor; [by left |].
  case_decide; [apply reply_fromStage | constructor].
Qed.

Lemma attachmentStage_shape :
  Forall (fromStage rev env s post 6) (attachmentStage rev env reg s post).
Proof.
  unfold attachmentStage. case_decide; [| constructor].
  apply Forall_range. intros k fileId _.
  constructor; [by left |].
  destruct (downloadFile_result env _ _ _); [constructor |].
  apply Forall_range. intros i v _.
  constructor; [by left |].
  case_decide; [apply reply_fromStage | constructor].
Qed.

(** A call that is not a post can only come from its own stage. *)
Lemma fromStage_inv n c :
  fromStage rev env s post n c → stageOf c ≠ 0 → stageOf c = n.
Proof.
  intros [Hn | [message Hc]] Hne; [done |].
  pose proof (sendReply_posts (MattermostPost.ChannelId post) message
                (rootIdArg rev post)) as Hposts.
  rewrite Forall_forall in Hposts. by apply Hposts in Hc.
Qed.

Lemma unseen_off_stage {B} (f : Call → option B) (m n : nat) (l : list Call) :
  (∀ c, is_Some (f c) → stageOf c = m) → m ≠ 0 → m ≠ n →
  Forall (fromStage rev env s post n) l → omap f l = [].
Proof.
  intros Hf Hm Hmn Hl. apply omap_unseen.
  eapply Forall_impl; [exact Hl |]. intros c Hc. simpl.
  destruct (f c) as [b |] eqn:Hfc; [| done].
  assert (stageOf c = m) as Hcm by (apply Hf; rewrite Hfc; eauto).
  apply fromStage_inv in Hc; lia.
Qed.

Lemma not_elem_of_off_stage (n : nat) (l : list Call) (c : Call) :
  stageOf c ≠ 0 → stageOf c ≠ n →
  Forall (fromStage rev env s post n) l → c ∉ l.
Proof.
  intros H0 Hn Hl Hc. rewrite Forall_forall in Hl.
  apply Hl, fromStage_inv in Hc; done.
Qed.

End Shape.

(** ** Splitting on the first space *)

Section Cut.

Context (sep : ascii).

Lemma free_of_empty : free_of sep "".
Proof. intros [| c x] y; discriminate. Qed.

Lemma free_of_String c a :
  c ≠ sep → free_of sep a → free_of sep (String c a).
Proof.
  intros Hc Ha [| d x] y; simpl; intros Heq; injection Heq as -> ->.
  - done.
  - by apply (Ha x y).
Qed.

Lemma free_of_inv c a : free_of sep (String c a) → c ≠ sep ∧ free_of sep a.
Proof.
  intros H. split.
  - intros ->. by apply (H "" a).
  - intros x y ->. by apply (H (String c x) y).
Qed.

Lemma cut_Some s a b :
  cut sep s = Some (a, b) ↔ s = a +:+ String sep b ∧ free_of sep a.
Proof.
  split.
  - revert a. induction s as [| c s IH]; intros a; simpl; [discriminate |].
    destruct (Ascii.eqb_spec c sep) as [-> | Hc].
    + intros [= <- <-]. split; [reflexivity | apply free_of_empty].
    + destruct (cut sep s) as [[a' b'] |]; [| discriminate].
      intros [= <- <-]. destruct (IH a' eq_refl) as [-> Hfree].
      split; [reflexivity | by apply free_of_String].
  - intros [-> Hfree]. induction a as [| c a IH]; simpl.
    + by rewrite Ascii.eqb_refl.
    + apply free_of_inv in Hfree as [Hc Hfree].
      destruct (Ascii.eqb_spec c sep) as [-> | _]; [done |].
      by rewrite (IH Hfree).
Qed.

Lemma cut_None s : cut sep s = None ↔ free_of sep s.
Proof.
  split.
  - intros Hcut x y ->.
    induction x as [| c x IH]; simpl in Hcut.
    + by rewrite Ascii.eqb_refl in Hcut.
    + destruct (Ascii.eqb c sep); [done |].
      destruct (cut sep (x +:+ String sep y)) as [[] |]; [done |].
      by apply IH.
  - intros Hfree. destruct (cut sep s) as [[a b] |] eqn:Hcut; [| done].
    apply cut_Some in Hcut as [-> _]. by destruct (Hfree a b).
Qed.

(** [strings.SplitN(s, sep, 2)] is one cut. *)
Lemma SplitN_2 s :
  SplitN s sep 2
  = match cut sep s with Some (a, b) => [a; b] | None => [s] end.
Proof.
  unfold SplitN. destruct s as [| c s]; [reflexivity |].
  change (String.length (String c s)) with (S (String.length s)).
  replace (Nat.min 2 (S (String.length s) + 1) - 1) with 1 by lia.
  simpl. destruct (Ascii.eqb c sep); [reflexivity |].
  by destruct (cut sep s) as [[] |].
Qed.

End Cut.

(** ** C6: command words *)

(** The invocations the command stage makes. *)
Lemma commandStage_calls rev env reg s post command r :
  CallMsgInput command r ∈ commandStage rev env reg s post
  ↔ is_Some (MsgInputHandlers reg !! command)
    ∧ ∃ rest,
        cut " " (MattermostPost.Message post) = Some (command, rest)
        ∧ r = mkRequest rest "mattermost"
                (MattermostPost.ChannelId post) (MattermostPost.UserId post).
Proof.
  unfold commandStage. rewrite SplitN_2.
  destruct (cut " " (MattermostPost.Message post)) as [[a b] |]; simpl.
  - destruct (MsgInputHandlers reg !! a) as [ih |] eqn:Hih.
    + rewrite elem_of_cons. split.
      * intros [[= -> ->] | Hin].
        -- split; [by rewrite Hih | by exists b].
        -- exfalso. case_decide; [| by apply elem_of_nil in Hin].
           pose proof (sendReply_posts rev env s
                         (MattermostPost.ChannelId post) (ih
                           (mkRequest b "mattermost"
                              (MattermostPost.ChannelId post)
                              (MattermostPost.UserId post)))
                         (rootIdArg rev post)) as Hposts.
           rewrite Forall_forall in Hposts. by apply Hposts in Hin.
      * intros [_ (rest & [= -> ->] & ->)]. by left.
    + rewrite elem_of_nil. split; [done |].
      intros [[ih Hsome] (rest & [= -> ->] & _)]. congruence.
  - rewrite elem_of_nil. split; [done |]. by intros [_ (rest & ? & _)].
Qed.

(** C6.  For an inbound message of somebody else, the command handler
    registered under [command] is invoked with request [r] if and only if
    the text is [command], one space, and a remainder, where [command] has no
    space (so the space is the first one of the text), [command] is a key of
    the command table, and [r] carries the remainder as its text.  In
    particular a text without any space invokes no command handler. *)
Theorem command_word_dispatch rev env reg s event post :
  inbound env event post →
  MattermostPost.UserId post ≠ MattermostUser.Id (User s) →
  (∀ command r,
     CallMsgInput command r ∈ handleWebSocketEvent rev env reg s event
     ↔ is_Some (MsgInputHandlers reg !! command)
       ∧ ∃ rest,
           MattermostPost.Message post = command +:+ " " +:+ rest
           ∧ free_of " " command
           ∧ r = mkRequest rest "mattermost"
                   (MattermostPost.ChannelId post)
                   (MattermostPost.UserId post))
  ∧ (free_of " " (MattermostPost.Message post) →
     ∀ command r,
       CallMsgInput command r ∉ handleWebSocketEvent rev env reg s event).
Proof.
  intros Hin Hother.
  assert (∀ command r,
            CallMsgInput command r ∈ handleWebSocketEvent rev env reg s event
            ↔ CallMsgInput command r ∈ commandStage rev env reg s post)
    as Hstage.
  { intros command r. rewrite (handle_other _ _ _ _ _ _ Hin Hother).
    rewrite !elem_of_app. split; [| tauto].
    intros [H | [H | [H | [H | H]]]]; [| | | exact H |]; exfalso;
      revert H;
      (eapply not_elem_of_off_stage;
       [| | first [apply exactStage_shape | apply catchallStage_shape
                  | apply extendedStage_shape | apply attachmentStage_shape]]);
      done. }
  split.
  - intros command r. rewrite Hstage, commandStage_calls.
    split; intros [Hsome (rest & Hcut & Hr)]; (split; [exact Hsome |]);
      exists rest.
    + apply cut_Some in Hcut as [Hmsg Hfree]. done.
    + destruct Hr as [Hfree Hr]. split; [| exact Hr]. by apply cut_Some.
  - intros Hfree command r. rewrite Hstage, commandStage_calls.
    intros [_ (rest & Hcut & _)]. apply cut_None in Hfree. congruence.
Qed.

Lemma command_word_dispatch_witness :
  let run message :=
    handleWebSocketEvent HttpClient
      (exampleEnv (examplePost message []) noFailure)
      exampleRegistry exampleAdapter exampleEvent in
  CallMsgInput "!foo" (mkRequest "bar baz" "mattermost" "c1" "u1")
    ∈ run "!foo bar baz"
  ∧ ∀ command r, CallMsgInput command r ∉ run "!foo".
Proof.
  intros run. split.
  - apply (command_word_dispatch HttpClient
             (exampleEnv (examplePost "!foo bar baz" []) noFailure)
             exampleRegistry exampleAdapter exampleEvent
             (examplePost "!foo bar baz" [])).
    + apply exampleEvent_inbound.
    + discriminate.
    + split.
      * simpl. rewrite lookup_insert_eq. eauto.
      * exists "bar baz". split; [reflexivity |]. split; [| reflexivity].
        apply cut_None. reflexivity.
  - apply (command_word_dispatch HttpClient
             (exampleEnv (examplePost "!foo" []) noFailure)
             exampleRegistry exampleAdapter exampleEvent
             (examplePost "!foo" [])).
    + apply exampleEvent_inbound.
    + discriminate.
    + apply cut_None. reflexivity.
Defined.

(** ** C8: catchall and extended catchall handlers *)

Lemma omap_reply_unseen {B} (f : Call → option B) rev env s
    channelId message rootId :
  (∀ c, is_Some (f c) → stageOf c ≠ 0) →
  omap f (sendReply rev env s channelId message rootId) = [].
Proof.
  intros Hf. apply omap_unseen.
  eapply Forall_impl; [apply sendReply_posts |].
  intros c Hc. simpl. destruct (f c) eqn:Hfc; [| done].
  exfalso. apply (Hf c); [rewrite Hfc; eauto | done].
Qed.

Lemma catchallCall_stage c : is_Some (catchallCall c) → stageOf c = 3.
Proof. destruct c; simpl; intros [? ?]; done. Qed.

Lemma extendedCall_stage c : is_Some (extendedCall c) → stageOf c = 4.
Proof. destruct c; simpl; intros [? ?]; done. Qed.

Lemma downloadCall_stage c : is_Some (downloadCall c) → stageOf c = 6.
Proof. destruct c; simpl; intros [? ?]; done. Qed.

Lemma catchallStage_calls rev env reg s post :
  omap catchallCall (catchallStage rev env reg s post)
  = imap (fun i _ => (i, requestOf post)) (CatchallHandlers reg).
Proof.
  unfold catchallStage.
  rewrite (omap_range_one catchallCall (fun i _ => (i, requestOf post))).
  - done.
  - intros k v. simpl. f_equal.
    case_decide; [| done]. apply omap_reply_unseen.
    intros c Hc. by rewrite (catchallCall_stage c Hc).
Qed.

Lemma extendedStage_calls rev env reg s post :
  omap extendedCall (extendedStage rev env reg s post)
  = imap (fun i _ => (i, mkExtendedMessage (MattermostPost.Message post) None))
         (CatchallExtendedHandlers reg).
Proof.
  assert (∀ c, is_Some (extendedCall c) → stageOf c ≠ 0) as Hoff.
  { intros c Hc. by rewrite (extendedCall_stage c Hc). }
  unfold extendedStage.
  rewrite (omap_range_one extendedCall
             (fun i _ =>
                (i, mkExtendedMessage (MattermostPost.Message post) None))).
  - done.
  - intros k v. simpl. f_equal.
    destruct (v _) as [r |]; [| done]. rewrite omap_app.
    assert (∀ l1 l2 : list (nat * ExtendedMessage),
              l1 = [] → l2 = [] → l1 ++ l2 = []) as Happ by (by intros ?? -> ->).
    apply Happ.
    + case_decide; [| done]. by apply omap_reply_unseen.
    + destruct (Image r); [| done]. by apply omap_reply_unseen.
Qed.

(** C8.  For an inbound message of somebody else, the invocations of
    catchall handlers in the run are exactly one per registered handler, in
    registration order, each with the request built from the message; and
    the same holds for the extended catchall handlers, each with the message
    text.  The statement holds for every registry, hence whatever the exact
    match stage did before. *)
Theorem catchall_handlers_all_run rev env reg s event post :
  inbound env event post →
  MattermostPost.UserId post ≠ MattermostUser.Id (User s) →
  omap catchallCall (handleWebSocketEvent rev env reg s event)
  = imap (fun i _ => (i, requestOf post)) (CatchallHandlers reg)
  ∧ omap extendedCall (handleWebSocketEvent rev env reg s event)
    = imap (fun i _ =>
              (i, mkExtendedMessage (MattermostPost.Message post) None))
           (CatchallExtendedHandlers reg).
Proof.
  intros Hin Hother. rewrite (handle_other _ _ _ _ _ _ Hin Hother).
  rewrite !omap_app. split.
  - rewrite catchallStage_calls.
    rewrite (unseen_off_stage rev env s post catchallCall 3 2 _
               catchallCall_stage) by (done || apply exactStage_shape).
    rewrite (unseen_off_stage rev env s post catchallCall 3 4 _
               catchallCall_stage) by (done || apply extendedStage_shape).
    rewrite (unseen_off_stage rev env s post catchallCall 3 5 _
               catchallCall_stage) by (done || apply commandStage_shape).
    rewrite (unseen_off_stage rev env s post catchallCall 3 6 _
               catchallCall_stage) by (done || apply attachmentStage_shape).
    by rewrite app_nil_r.
  - rewrite extendedStage_calls.
    rewrite (unseen_off_stage rev env s post extendedCall 4 2 _
               extendedCall_stage) by (done || apply exactStage_shape).
    rewrite (unseen_off_stage rev env s post extendedCall 4 3 _
               extendedCall_stage) by (done || apply catchallStage_shape).
    rewrite (unseen_off_stage rev env s post extendedCall 4 5 _
               extendedCall_stage) by (done || apply commandStage_shape).
    rewrite (unseen_off_stage rev env s post extendedCall 4 6 _
               extendedCall_stage) by (done || apply attachmentStage_shape).
    by rewrite app_nil_r.
Qed.

Lemma catchall_handlers_all_run_witness :
  let post := examplePost "hello" [] in
  let run :=
    handleWebSocketEvent Client4 (exampleEnv post noFailure)
      exampleRegistry exampleAdapter exampleEvent in
  CallHandler "hello" ∈ run
  ∧ omap catchallCall run = [(0, mkRequest "hello" "mattermost" "c1" "u1")]
  ∧ omap extendedCall run = [(0, mkExtendedMessage "hello" None)].
Proof.
  intros post run. split.
  - vm_compute. left.
  - apply (catchall_handlers_all_run Client4 (exampleEnv post noFailure)
             exampleRegistry exampleAdapter exampleEvent post).
    + apply exampleEvent_inbound.
    + discriminate.
Defined.

(** ** C9: attachments *)

Lemma attachmentStage_downloads rev env reg s post :
  omap downloadCall (attachmentStage rev env reg s post)
  = (fun fileId => (fileId, "tmp/" +:+ fileId))
      <$> MattermostPost.FileIds post.
Proof.
  unfold attachmentStage. case_decide as Hlen.
  - rewrite (omap_range_one downloadCall
               (fun _ fileId => (fileId, "tmp/" +:+ fileId))).
    + apply (imap_const (fun fileId => (fileId, "tmp/" +:+ fileId))).
    + intros k fileId. simpl. f_equal.
      destruct (downloadFile_result env _ _ _); [done |].
      apply omap_unseen, Forall_range. intros i v _.
      constructor; [done |]. case_decide; [| constructor].
      eapply Forall_impl; [apply sendReply_posts |].
      by intros [] Hc.
  - destruct (MattermostPost.FileIds post); [done | simpl in Hlen; lia].
Qed.

Lemma omap_range {A B} (f : Call → option B) (body : nat → A → list Call)
    l i :
  omap f (range body i l)
  = mjoin (imap (fun k x => omap f (body (i + k) x)) l).
Proof.
  revert i. induction l as [| x l IH]; intros i; [done |].
  simpl. rewrite omap_app, IH, Nat.add_0_r. f_equal. f_equal.
  apply imap_ext. intros k y _. simpl. do 2 f_equal. lia.
Qed.

Lemma imageCall_stage c : is_Some (imageCall c) → stageOf c = 6.
Proof. destruct c; simpl; intros [? ?]; done. Qed.

(** The image handler invocations of the attachment stage: for each file
    whose download succeeds, and for no other, every handler in turn. *)
Lemma attachmentStage_image_calls rev env reg s post :
  omap imageCall (attachmentStage rev env reg s post)
  = imageRuns env reg (MattermostPost.FileIds post).
Proof.
  unfold attachmentStage, imageRuns.
  case_decide as Hlen;
    [| destruct (MattermostPost.FileIds post); [done | simpl in Hlen; lia]].
  rewrite omap_range. f_equal. apply imap_ext. intros k fileId _. simpl.
  destruct (downloadFile_result env _ _ _); [done |].
  rewrite (omap_range_one imageCall
             (fun i _ => (i, "tmp/" +:+ fileId))); [done |].
  intros i v. simpl. f_equal. case_decide; [| done].
  apply omap_reply_unseen. intros c Hc. by rewrite (imageCall_stage c Hc).
Qed.

Lemma attachmentStage_images rev env reg s post k fileId i v :
  MattermostPost.FileIds post !! k = Some fileId →
  downloadFile_result env k fileId ("tmp/" +:+ fileId) = None →
  ImageHandlers reg !! i = Some v →
  CallImage i ("tmp/" +:+ fileId) (requestOf post)
    ∈ attachmentStage rev env reg s post.
Proof.
  intros Hk Hok Hi. unfold attachmentStage.
  case_decide as Hlen; [| apply lookup_lt_Some in Hk; lia].
  apply (elem_of_range _ _ 0 k fileId); [exact Hk |].
  simpl. rewrite Hok. right.
  apply (elem_of_range _ _ 0 i v); [exact Hi |].
  simpl. left.
Qed.

(** C9.  For an inbound message of somebody else, whichever downloads
    fail: (1) the downloads attempted are exactly one per file id of the
    message, in order, each to [tmp/<file id>], so a failure never stops the
    loop; (2) the image handler invocations are exactly these, in this
    order: for each file id whose own download succeeded, every registered
    image handler in registration order, on that file; so the attachment
    whose download failed is skipped, it reaches no image handler, and it is
    the only one that is skipped; (3) each of these invocations receives the
    request of the message.  The attachment stage is the last one, so
    nothing runs after it that a failure could prevent. *)
Theorem attachment_failure_skips_one rev env reg s event post :
  inbound env event post →
  MattermostPost.UserId post ≠ MattermostUser.Id (User s) →
  omap downloadCall (handleWebSocketEvent rev env reg s event)
  = (fun fileId => (fileId, "tmp/" +:+ fileId))
      <$> MattermostPost.FileIds post
  ∧ omap imageCall (handleWebSocketEvent rev env reg s event)
    = imageRuns env reg (MattermostPost.FileIds post)
  ∧ ∀ k fileId i v,
      MattermostPost.FileIds post !! k = Some fileId →
      downloadFile_result env k fileId ("tmp/" +:+ fileId) = None →
      ImageHandlers reg !! i = Some v →
      CallImage i ("tmp/" +:+ fileId) (requestOf post)
        ∈ handleWebSocketEvent rev env reg s event.
Proof.
  intros Hin Hother. rewrite (handle_other _ _ _ _ _ _ Hin Hother).
  split; [| split].
  - rewrite !omap_app, attachmentStage_downloads.
    rewrite (unseen_off_stage rev env s post downloadCall 6 2 _
               downloadCall_stage) by (done || apply exactStage_shape).
    rewrite (unseen_off_stage rev env s post downloadCall 6 3 _
               downloadCall_stage) by (done || apply catchallStage_shape).
    rewrite (unseen_off_stage rev env s post downloadCall 6 4 _
               downloadCall_stage) by (done || apply extendedStage_shape).
    rewrite (unseen_off_stage rev env s post downloadCall 6 5 _
               downloadCall_stage) by (done || apply commandStage_shape).
    done.
  - rewrite !omap_app, attachmentStage_image_calls.
    rewrite (unseen_off_stage rev env s post imageCall 6 2 _
               imageCall_stage) by (done || apply exactStage_shape).
    rewrite (unseen_off_stage rev env s post imageCall 6 3 _
               imageCall_stage) by (done || apply catchallStage_shape).
    rewrite (unseen_off_stage rev env s post imageCall 6 4 _
               imageCall_stage) by (done || apply extendedStage_shape).
    rewrite (unseen_off_stage rev env s post imageCall 6 5 _
               imageCall_stage) by (done || apply commandStage_shape).
    done.
  - intros k fileId i v Hk Hok Hi. rewrite !elem_of_app.
    do 4 right. by apply (attachmentStage_images _ _ _ _ _ k fileId i v).
Qed.

(** Two attachments, the first of which cannot be downloaded: both are
    fetched, and only the second reaches the image handler. *)
Lemma attachment_failure_skips_one_witness :
  let post := examplePost "look" ["f1"; "f2"] in
  let failing k := bool_decide (k = 0) in
  let run :=
    handleWebSocketEvent HttpClient (exampleEnv post failing)
      exampleRegistry exampleAdapter exampleEvent in
  omap downloadCall run = [("f1", "tmp/f1"); ("f2", "tmp/f2")]
  ∧ omap imageCall run = [(0, "tmp/f2")]
  ∧ CallImage 0 "tmp/f2" (mkRequest "look" "mattermost" "c1" "u1") ∈ run.
Proof.
  intros post failing run.
  pose proof (attachment_failure_skips_one HttpClient (exampleEnv post failing)
                exampleRegistry exampleAdapter exampleEvent post
                (exampleEvent_inbound post failing))
    as (Hdl & Hruns & Himg);
    [discriminate |].
  split; [exact Hdl |]. split; [exact Hruns |].
  apply (Himg 1 "f2" 0 (fun filename r => "got " +:+ filename));
    reflexivity.
Defined.

(** ** C4: the root id of a reply *)

Lemma sendReply_root rev env s channelId message rootId :
  Forall (fun c => postedRootId c = Some rootId)
    (sendReply rev env s channelId message rootId).
Proof.
  unfold sendReply. destruct rev.
  - destruct (http_NewRequest env _); constructor; [| constructor].
    simpl. case_decide as Hroot.
    + by rewrite lookup_insert_eq.
    + rewrite !lookup_insert_ne, lookup_empty by done. simpl.
      destruct (decide (rootId = "")); congruence.
  - constructor; [| constructor]. simpl. case_decide as Hroot; [done |].
    simpl. destruct (decide (rootId = "")); congruence.
Qed.

Lemma sendReply_channel rev env s channelId message rootId :
  Forall (fun c => postedChannel c = Some channelId
                   ∧ postedMessage c = Some message)
    (sendReply rev env s channelId message rootId).
Proof.
  unfold sendReply. destruct rev.
  - destruct (http_NewRequest env _); constructor; [| constructor].
    simpl. case_decide; split;
      repeat first [ rewrite lookup_insert_eq; reflexivity
                   | rewrite lookup_insert_ne by done ].
  - constructor; [| constructor]. simpl. by case_decide.
Qed.

(** Every call of a run is an invocation or a reply to the message. *)
Lemma handle_shape rev env reg s event post :
  inbound env event post →
  Forall (fun c => stageOf c ≠ 0 ∨ isReplyTo rev env s post c)
    (handleWebSocketEvent rev env reg s event).
Proof.
  intros Hin.
  destruct (decide (MattermostPost.UserId post = MattermostUser.Id (User s)))
    as [Hself | Hother].
  - rewrite (handle_self _ _ _ _ _ _ Hin Hself). constructor.
  - rewrite (handle_other _ _ _ _ _ _ Hin Hother).
    repeat apply Forall_app_2;
      (eapply Forall_impl;
       [first [apply exactStage_shape | apply catchallStage_shape
              | apply extendedStage_shape | apply commandStage_shape
              | apply attachmentStage_shape] |]);
      (intros c [Hc | Hc]; [left; rewrite Hc; done | by right]).
Qed.

(** C4 (as amended).  Every post that the dispatcher makes for an inbound
    message carries, as its root id, [post.Id] of that message in the first
    revision and [post.RootId] of that message in the second; an empty root
    id is a post without one. *)
Theorem reply_root_id rev env reg s event post :
  inbound env event post →
  Forall (fun c =>
            ∀ r, postedRootId c = Some r →
                 r = match rev with
                     | HttpClient => MattermostPost.Id post
                     | Client4 => MattermostPost.RootId post
                     end)
    (handleWebSocketEvent rev env reg s event).
Proof.
  intros Hin. eapply Forall_impl; [apply (handle_shape _ _ _ _ _ _ Hin) |].
  intros c [Hc | [message Hc]] r Hr; simpl in *.
  - destruct c; simpl in *; done.
  - pose proof (sendReply_root rev env s (MattermostPost.ChannelId post)
                  message (rootIdArg rev post)) as Hroot.
    rewrite Forall_forall in Hroot. apply Hroot in Hc.
    rewrite Hr in Hc. injection Hc as ->. by destruct rev.
Qed.

Lemma reply_root_id_witness :
  let top := examplePost "hello" [] in
  let threaded := MattermostPost.mk "p2" "c1" "u1" "hello" [] "p1" in
  Forall (fun c => ∀ r, postedRootId c = Some r → r = "p1")
    (handleWebSocketEvent HttpClient (exampleEnv top noFailure)
       exampleRegistry exampleAdapter exampleEvent)
  ∧ Forall (fun c => ∀ r, postedRootId c = Some r → r = "p1")
      (handleWebSocketEvent Client4 (exampleEnv threaded noFailure)
         exampleRegistry exampleAdapter exampleEvent).
Proof.
  intros top threaded. split.
  - apply (reply_root_id HttpClient (exampleEnv top noFailure)
             exampleRegistry exampleAdapter exampleEvent top).
    apply exampleEvent_inbound.
  - apply (reply_root_id Client4 (exampleEnv threaded noFailure)
             exampleRegistry exampleAdapter exampleEvent threaded).
    apply exampleEvent_inbound.
Defined.

(** In the second revision the reply to the top-level post [p1] saying
    "hello" is a post without root id, not a post under [p1]. *)
Lemma reply_root_id_counterexample :
  let post := examplePost "hello" [] in
  let run :=
    handleWebSocketEvent Client4 (exampleEnv post noFailure)
      exampleRegistry exampleAdapter exampleEvent in
  inbound (exampleEnv post noFailure) exampleEvent post
  ∧ CreatePost (MattermostPost.mk "" "c1" "" "World!" [] "") ∈ run
  ∧ ¬ Forall (fun c =>
                ∀ r, postedRootId c = Some r → r = MattermostPost.Id post)
        run.
Proof.
  intros post run.
  assert (CreatePost (MattermostPost.mk "" "c1" "" "World!" [] "") ∈ run)
    as Hin by (vm_compute; right; left).
  split; [apply exampleEvent_inbound |]. split; [exact Hin |].
  intros Hall. rewrite Forall_forall in Hall.
  specialize (Hall _ Hin "" eq_refl). discriminate.
Qed.

(** ** C2: exact match handlers *)

(** What the exact match stage does: a registered handler is invoked and
    its return value goes to [sendReply], whatever it is. *)
Lemma exactStage_registered rev env reg s post h :
  Handlers reg !! MattermostPost.Message post = Some h →
  exactStage rev env reg s post
  = CallHandler (MattermostPost.Message post)
    :: sendReply rev env s (MattermostPost.ChannelId post) (h tt)
         (rootIdArg rev post).
Proof. intros Hh. unfold exactStage. by rewrite Hh. Qed.

Lemma exactStage_unregistered rev env reg s post :
  Handlers reg !! MattermostPost.Message post = None →
  exactStage rev env reg s post = [].
Proof. intros Hh. unfold exactStage. by rewrite Hh. Qed.

(** C2 (fails on the code).  With a single handler registered, under the
    key "ping" and returning the empty string, the message "ping" makes the
    dispatcher invoke the handler and then post a reply whose text is empty,
    in both revisions; the other stages test their return value against the
    empty string before they reply, the exact match stage does not. *)
Theorem exact_match_posts_empty_reply :
  let post := examplePost "ping" [] in
  let reg :=
    {| Handlers := <["ping" := fun _ => ""]> ∅;
       CatchallHandlers := [];
       CatchallExtendedHandlers := [];
       MsgInputHandlers := ∅;
       ImageHandlers := [] |} in
  handleWebSocketEvent HttpClient (exampleEnv post noFailure) reg
    exampleAdapter exampleEvent
  = [CallHandler "ping";
     HttpPost "http://mm/api/v4/posts" "Bearer tok"
       (<["root_id" := "p1"]>
          (<["message" := ""]> (<["channel_id" := "c1"]> ∅)))]
  ∧ handleWebSocketEvent Client4 (exampleEnv post noFailure) reg
      exampleAdapter exampleEvent
    = [CallHandler "ping";
       CreatePost (MattermostPost.mk "" "c1" "" "" [] "")].
Proof. split; vm_compute; reflexivity. Qed.

(** ** C3 and C5: [SendWithOptions] and [ChannelMessageSend] *)

(** A send to a channel that resolves to [channel]: the adapter is left as
    it was, every call made is a post to [channel], and one is made whenever
    the request can be built. *)
Lemma ChannelMessageSend_resolved rev env s given channel message :
  (if decide (given = "") then DefaultChannel s else given) = channel →
  channel ≠ "" →
  ∃ r,
    ChannelMessageSend rev env (Some s) given message = Returned r
    ∧ after r = s
    ∧ Forall (fun c => postedChannel c = Some channel
                       ∧ postedMessage c = Some message) (calls r)
    ∧ (http_NewRequest env (ServerURL s +:+ "/api/v4/posts") = None →
       length (calls r) = 1).
Proof.
  intros Hres Hne. unfold ChannelMessageSend. rewrite Hres.
  destruct (decide (channel = "")) as [-> | _]; [done |].
  destruct rev.
  - destruct (http_NewRequest env _) as [e |].
    + eexists. split; [reflexivity |]. simpl. by repeat split.
    + destruct (Client_Do env _ _ _) as [e | StatusCode body];
        [| destruct (decide (StatusCode ≠ 201%Z))];
        (eexists; split; [reflexivity |]; simpl;
         split; [done |]; split; [| done];
         apply Forall_singleton; simpl; split;
         [by rewrite lookup_insert_ne, lookup_insert_eq by done
         | by rewrite lookup_insert_eq]).
  - destruct (Client_CreatePost env _);
      (eexists; split; [reflexivity |]; simpl;
       split; [done |]; split; [| done]; by apply Forall_singleton).
Qed.

Lemma ChannelMessageSend_unresolved rev env s given message :
  (if decide (given = "") then DefaultChannel s else given) = "" →
  ChannelMessageSend rev env (Some s) given message
  = Returned (mkSent s (Some "no channel specified") []).
Proof.
  intros Hres. unfold ChannelMessageSend. rewrite Hres.
  by destruct (decide ("" = "")).
Qed.

(** C5.  [ChannelMessageSend] with an empty channel argument behaves as
    with [DefaultChannel] as its argument.  When [DefaultChannel] is set,
    the call returns, leaves the adapter as it was, makes no call but posts
    of the message to [DefaultChannel], and makes one whenever the request
    can be built.  When [DefaultChannel] is empty too, it returns the error
    "no channel specified", makes no call and leaves the adapter as it
    was. *)
Theorem ChannelMessageSend_default_channel rev env s message :
  ChannelMessageSend rev env (Some s) "" message
  = ChannelMessageSend rev env (Some s) (DefaultChannel s) message
  ∧ (DefaultChannel s ≠ "" →
     ∃ r,
       ChannelMessageSend rev env (Some s) "" message = Returned r
       ∧ after r = s
       ∧ Forall (fun c => postedChannel c = Some (DefaultChannel s)
                          ∧ postedMessage c = Some message) (calls r)
       ∧ (http_NewRequest env (ServerURL s +:+ "/api/v4/posts") = None →
          length (calls r) = 1))
  ∧ (DefaultChannel s = "" →
     ChannelMessageSend rev env (Some s) "" message
     = Returned {| after := s;
                   err := Some "no channel specified";
                   calls := [] |}).
Proof.
  split; [| split].
  - unfold ChannelMessageSend. cbv zeta.
    replace (if decide (DefaultChannel s = "")
             then DefaultChannel s else DefaultChannel s)
      with (DefaultChannel s) by (by case_decide).
    reflexivity.
  - intros Hset. by apply ChannelMessageSend_resolved.
  - intros Hunset. by apply ChannelMessageSend_unresolved.
Qed.

Lemma ChannelMessageSend_default_channel_witness :
  let env := exampleEnv (examplePost "" []) noFailure in
  (∃ r,
     ChannelMessageSend Client4 env (Some exampleAdapter) "" "hi" = Returned r
     ∧ after r = exampleAdapter
     ∧ Forall (fun c => postedChannel c = Some "town"
                        ∧ postedMessage c = Some "hi") (calls r)
     ∧ length (calls r) = 1)
  ∧ ChannelMessageSend HttpClient env
      (Some (set_DefaultChannel "" exampleAdapter)) "" "hi"
    = Returned {| after := set_DefaultChannel "" exampleAdapter;
                  err := Some "no channel specified";
                  calls := [] |}.
Proof.
  intros env. split.
  - destruct (ChannelMessageSend_default_channel Client4 env exampleAdapter
                "hi") as (_ & Hset & _).
    destruct Hset as (r & Hr & Hafter & Hposts & Hone); [discriminate |].
    exists r. split; [exact Hr |]. split; [exact Hafter |].
    split; [exact Hposts |]. apply Hone. reflexivity.
  - apply (ChannelMessageSend_default_channel HttpClient env
             (set_DefaultChannel "" exampleAdapter) "hi").
    reflexivity.
Defined.




(** * More properties of the dispatcher *)

Local Open Scope nat_scope.

(** A run is empty, or it is the five stages for the post of the event. *)
Lemma handle_cases rev env reg s event :
  handleWebSocketEvent rev env reg s event = []
  ∨ ∃ post,
      inbound env event post
      ∧ MattermostPost.UserId post ≠ MattermostUser.Id (User s).
Proof.
  unfold handleWebSocketEvent, inbound.
  destruct (decide (_ ≠ "posted")) as [| Hev]; [by left |].
  destruct (_ !! "post") as [[| | | postData | |] |] eqn:Hdata; try by left.
  destruct (json_Unmarshal env postData) as [post |] eqn:Hdec; [| by left].
  destruct (decide (_ = _)) as [| Hother]; [by left |].
  right. exists post. split; [| done].
  split; [| by exists postData].
  by destruct (decide (MattermostWebSocketEvent.Event event = "posted")).
Qed.

(** X1.  An event that carries no post (it is not a "posted" event, or its
    "post" entry is missing or not a string, or the entry does not decode)
    is dropped: no handler is invoked, nothing is downloaded, nothing is
    sent. *)
Theorem event_without_post_is_dropped rev env reg s event :
  (∀ post, ¬ inbound env event post) →
  handleWebSocketEvent rev env reg s event = [].
Proof.
  intros Hnone. destruct (handle_cases rev env reg s event)
    as [Hrun | (post & Hin & _)]; [exact Hrun |].
  destruct (Hnone post Hin).
Qed.

Lemma event_without_post_is_dropped_witness :
  let typing :=
    MattermostWebSocketEvent.mk "typing" (<["post" := JString "{}"]> ∅) in
  handleWebSocketEvent HttpClient
    (exampleEnv (examplePost "hello" []) noFailure)
    exampleRegistry exampleAdapter typing = [].
Proof.
  intros typing.
  apply (event_without_post_is_dropped HttpClient
           (exampleEnv (examplePost "hello" []) noFailure)
           exampleRegistry exampleAdapter typing).
  intros post [Hev _]. discriminate.
Defined.

Lemma isPost_stage c : isPost c = true ↔ stageOf c = 0.
Proof. destruct c; simpl; split; done. Qed.

(** X2.  Every post that the dispatcher makes for an inbound message goes
    to the channel the message was posted in. *)
Theorem replies_stay_in_the_channel rev env reg s event post :
  inbound env event post →
  Forall (fun c => isPost c = true →
                   postedChannel c = Some (MattermostPost.ChannelId post))
    (handleWebSocketEvent rev env reg s event).
Proof.
  intros Hin. eapply Forall_impl; [apply (handle_shape _ _ _ _ _ _ Hin) |].
  intros c [Hc | [message Hc]] Hpost; simpl in *.
  - apply isPost_stage in Hpost. done.
  - pose proof (sendReply_channel rev env s (MattermostPost.ChannelId post)
                  message (rootIdArg rev post)) as Hch.
    rewrite Forall_forall in Hch. by apply Hch in Hc as [-> _].
Qed.

Lemma replies_stay_in_the_channel_witness :
  Forall (fun c => isPost c = true → postedChannel c = Some "c1")
    (handleWebSocketEvent Client4
       (exampleEnv (examplePost "!foo bar" ["f1"]) noFailure)
       exampleRegistry exampleAdapter exampleEvent).
Proof.
  apply (replies_stay_in_the_channel Client4
           (exampleEnv (examplePost "!foo bar" ["f1"]) noFailure)
           exampleRegistry exampleAdapter exampleEvent
           (examplePost "!foo bar" ["f1"])).
  apply exampleEvent_inbound.
Defined.

(** Calls whose stage is 0 or lies between [lo] and [hi]. *)
Lemma sorted_one_stage (n : nat) (l : list Call) :
  Forall (fun c => stageOf c = 0 ∨ stageOf c = n) l →
  StronglySorted stageOrder l.
Proof.
  induction 1 as [| c l Hc Hl IH]; constructor; [exact IH |].
  eapply Forall_impl; [exact Hl |]. intros d Hd. unfold stageOrder.
  destruct Hc as [-> | ->]; [by left |].
  destruct Hd as [-> | ->]; [right; by left | right; right; done].
Qed.

Lemma sorted_stages_app (n : nat) (l1 l2 : list Call) :
  Forall (fun c => stageOf c = 0 ∨ stageOf c = n) l1 →
  Forall (fun c => stageOf c = 0 ∨ n < stageOf c) l2 →
  StronglySorted stageOrder l2 →
  StronglySorted stageOrder (l1 ++ l2).
Proof.
  intros H1 H2 Hs2. apply StronglySorted_app. split; [| split].
  - intros x1 x2 Hx1 Hx2. rewrite Forall_forall in H1, H2.
    unfold stageOrder.
    destruct (H1 x1 Hx1) as [-> | ->]; [by left |].
    destruct (H2 x2 Hx2) as [-> | Hlt]; [right; by left | right; right; lia].
  - by apply (sorted_one_stage n).
  - exact Hs2.
Qed.

Lemma stage_of_fromStage rev env s post n l :
  Forall (fromStage rev env s post n) l →
  Forall (fun c => stageOf c = 0 ∨ stageOf c = n) l.
Proof.
  intros Hl. eapply Forall_impl; [exact Hl |]. intros c Hc. simpl.
  destruct (decide (stageOf c = 0)) as [| Hne]; [by left |].
  right. by apply (fromStage_inv rev env s post).
Qed.

Lemma stage_above (n m : nat) (l : list Call) :
  n < m →
  Forall (fun c => stageOf c = 0 ∨ stageOf c = m) l →
  Forall (fun c => stageOf c = 0 ∨ n < stageOf c) l.
Proof.
  intros Hnm Hl. eapply Forall_impl; [exact Hl |].
  intros c [-> | ->]; [by left | by right].
Qed.

Lemma sendReply_length rev env s channelId message rootId :
  length (sendReply rev env s channelId message rootId) ≤ 1.
Proof.
  unfold sendReply. destruct rev; [| simpl; lia].
  destruct (http_NewRequest env _); simpl; lia.
Qed.

(** A list of calls that can follow any call. *)
Lemma repliesFollow_app reg prev l1 l2 :
  repliesFollow reg prev l1 →
  (∀ p, repliesFollow reg p l2) →
  repliesFollow reg prev (l1 ++ l2).
Proof.
  intros H1 H2. revert prev H1.
  induction l1 as [| c l1 IH]; intros prev H1; simpl; [apply H2 |].
  destruct H1 as [Hc Hrest]. split; [exact Hc | by apply IH].
Qed.

Lemma repliesFollow_range {A} reg (body : nat → A → list Call) l i :
  (∀ k x, l !! k = Some x → ∀ p, repliesFollow reg p (body (i + k) x)) →
  ∀ p, repliesFollow reg p (range body i l).
Proof.
  revert i. induction l as [| x l IH]; intros i Hbody p; simpl; [done |].
  apply repliesFollow_app.
  - specialize (Hbody 0 x eq_refl p). by rewrite Nat.add_0_r in Hbody.
  - apply IH. intros k y Hk q. specialize (Hbody (S k) y Hk q).
    by rewrite Nat.add_succ_r in Hbody.
Qed.

(** An invocation together with the reply to what it returned. *)
Lemma repliesFollow_block reg rev env s channelId rootId d message l :
  isInvocation d = true →
  outputOf reg d = Some message →
  l = [] ∨ l = sendReply rev env s channelId message rootId →
  ∀ p, repliesFollow reg p (d :: l).
Proof.
  intros Hd Hout Hl p. simpl. split; [by destruct d |].
  destruct Hl as [-> | ->]; [done |].
  pose proof (sendReply_length rev env s channelId message rootId) as Hlen.
  pose proof (sendReply_channel rev env s channelId message rootId) as Hmsg.
  pose proof (sendReply_posts rev env s channelId message rootId) as Hpost.
  destruct (sendReply rev env s channelId message rootId) as [| c [| ? ?]];
    [done | | simpl in Hlen; lia].
  simpl. split; [| done]. intros _. exists d, message.
  apply Forall_singleton in Hmsg as [_ Hmsg]. done.
Qed.

Lemma repliesFollow_silent reg d :
  isPost d = false → ∀ p, repliesFollow reg p [d].
Proof. intros Hd p. simpl. split; [by rewrite Hd | done]. Qed.

(** X3.  The stages run in their fixed order: in every run, an invocation
    or download of a later stage never comes before one of an earlier stage
    (exact match, catchall, extended catchall, command word, attachments).
    The replies are interleaved with the invocations: every post of a run
    comes directly after a handler invocation and carries what that handler
    returned, so no reply is held back or sent ahead. *)
Theorem stages_run_in_order rev env reg s event :
  StronglySorted stageOrder (handleWebSocketEvent rev env reg s event)
  ∧ repliesFollow reg None (handleWebSocketEvent rev env reg s event).
Proof.
  destruct (handle_cases rev env reg s event)
    as [-> | (post & Hin & Hother)]; [split; [constructor | done] |].
  rewrite (handle_other _ _ _ _ _ _ Hin Hother). split.
  - pose proof (stage_of_fromStage _ _ _ _ _ _
                  (exactStage_shape rev env reg s post)) as H2.
    pose proof (stage_of_fromStage _ _ _ _ _ _
                  (catchallStage_shape rev env reg s post)) as H3.
    pose proof (stage_of_fromStage _ _ _ _ _ _
                  (extendedStage_shape rev env reg s post)) as H4.
    pose proof (stage_of_fromStage _ _ _ _ _ _
                  (commandStage_shape rev env reg s post)) as H5.
    pose proof (stage_of_fromStage _ _ _ _ _ _
                  (attachmentStage_shape rev env reg s post)) as H6.
    apply (sorted_stages_app 2); [exact H2 | |].
    { repeat apply Forall_app_2; eapply stage_above; try eassumption; lia. }
    apply (sorted_stages_app 3); [exact H3 | |].
    { repeat apply Forall_app_2; eapply stage_above; try eassumption; lia. }
    apply (sorted_stages_app 4); [exact H4 | |].
    { repeat apply Forall_app_2; eapply stage_above; try eassumption; lia. }
    apply (sorted_stages_app 5); [exact H5 | |].
    { eapply stage_above; try eassumption; lia. }
    by apply (sorted_one_stage 6).
  - assert (∀ p, repliesFollow reg p (exactStage rev env reg s post)) as F2.
    { unfold exactStage.
      destruct (Handlers reg !! _) as [h |] eqn:Hh; [| done].
      eapply repliesFollow_block; [done | | by right].
      simpl. by rewrite Hh. }
    assert (∀ p, repliesFollow reg p (catchallStage rev env reg s post))
      as F3.
    { apply repliesFollow_range. intros k v Hk. cbv beta zeta.
      eapply repliesFollow_block; [done | simpl; by rewrite Hk |].
      case_decide; [by right | by left]. }
    assert (∀ p, repliesFollow reg p (extendedStage rev env reg s post))
      as F4.
    { apply repliesFollow_range. intros k v Hk. cbv beta zeta.
      destruct (v _) as [r |] eqn:Hv.
      - eapply (repliesFollow_block _ _ _ _ _ _ _ (Text r));
          [done | simpl; rewrite Hk; simpl; by rewrite Hv |].
        destruct (Image r) as [image |].
        + rewrite decide_False by (intros [_ ?]; done). by right.
        + rewrite app_nil_r. case_decide; [by right | by left].
      - by apply repliesFollow_silent. }
    assert (∀ p, repliesFollow reg p (commandStage rev env reg s post))
      as F5.
    { unfold commandStage. case_decide; [| done].
      destruct (SplitN _ _ _) as [| command [| actual_content rest]];
        [done | done |].
      destruct (MsgInputHandlers reg !! command) as [ih |] eqn:Hih;
        [| done].
      eapply repliesFollow_block; [done | simpl; by rewrite Hih |].
      case_decide; [by right | by left]. }
    assert (∀ p, repliesFollow reg p (attachmentStage rev env reg s post))
      as F6.
    { unfold attachmentStage. case_decide; [| done].
      apply repliesFollow_range. intros k fileId Hk p. cbv beta zeta.
      split; [done |].
      destruct (downloadFile_result env _ _ _); [done |].
      apply repliesFollow_range. intros i v Hi. cbv beta zeta.
      eapply repliesFollow_block; [done | simpl; by rewrite Hi |].
      case_decide; [by right | by left]. }
    apply repliesFollow_app; [apply F2 |]. intros p3.
    apply repliesFollow_app; [apply F3 |]. intros p4.
    apply repliesFollow_app; [apply F4 |]. intros p5.
    apply repliesFollow_app; [apply F5 | apply F6].
Qed.

(** In the run for "hello" the post "World!" comes right after the exact
    match handler, before the catchall handler is invoked. *)
Example hello_replies_follow :
  let run :=
    handleWebSocketEvent Client4
      (exampleEnv (examplePost "hello" []) noFailure)
      exampleRegistry exampleAdapter exampleEvent in
  stageOf <$> run = [2; 0; 3; 4] ∧ repliesFollow exampleRegistry None run.
Proof.
  intros run. split; [reflexivity |].
  vm_compute. repeat split; try done.
  intros _. eexists _, _. repeat split.
Qed.

(** ** Replies and invocations *)

Lemma posts_app l1 l2 : posts (l1 ++ l2) = posts l1 ++ posts l2.
Proof. apply filter_app. Qed.

Lemma invocations_app l1 l2 :
  invocations (l1 ++ l2) = invocations l1 ++ invocations l2.
Proof. apply filter_app. Qed.

(** A list of calls with no more posts than invocations. *)
Lemma balanced_app l1 l2 :
  length (posts l1) ≤ length (invocations l1) →
  length (posts l2) ≤ length (invocations l2) →
  length (posts (l1 ++ l2)) ≤ length (invocations (l1 ++ l2)).
Proof. rewrite posts_app, invocations_app, !length_app. lia. Qed.

Lemma balanced_invocation c l :
  isInvocation c = true → length l ≤ 1 →
  length (posts (c :: l)) ≤ length (invocations (c :: l)).
Proof.
  intros Hc Hl. unfold posts, invocations.
  rewrite (filter_cons_False (fun c => isPost c))
    by (destruct c; simpl in *; first [discriminate | tauto]).
  rewrite (filter_cons_True (fun c => isInvocation c)) by (by rewrite Hc).
  pose proof (length_filter (fun c => isPost c) l). simpl. lia.
Qed.

Lemma balanced_range {A} (body : nat → A → list Call) l i :
  (∀ k x, length (posts (body k x)) ≤ length (invocations (body k x))) →
  length (posts (range body i l)) ≤ length (invocations (range body i l)).
Proof.
  intros Hbody. revert i. induction l as [| x l IH]; intros i; simpl.
  - done.
  - by apply balanced_app.
Qed.

(** X4.  A run makes at most one post per handler invocation: the number
    of posts never exceeds the number of handlers invoked, so nothing is
    ever sent that no handler asked for. *)
Theorem at_most_one_post_per_invocation rev env reg s event :
  length (posts (handleWebSocketEvent rev env reg s event))
  ≤ length (invocations (handleWebSocketEvent rev env reg s event)).
Proof.
  destruct (handle_cases rev env reg s event)
    as [-> | (post & Hin & Hother)]; [done |].
  rewrite (handle_other _ _ _ _ _ _ Hin Hother).
  repeat apply balanced_app.
  - unfold exactStage. destruct (Handlers reg !! _); [| done].
    apply balanced_invocation; [done | apply sendReply_length].
  - apply balanced_range. intros k v.
    apply balanced_invocation; [done |].
    case_decide; [apply sendReply_length | simpl; lia].
  - apply balanced_range. intros k v.
    apply balanced_invocation; [done |].
    destruct (v _) as [r |]; [| simpl; lia].
    destruct (Image r) as [image |].
    + rewrite decide_False by (intros [_ ?]; done).
      apply sendReply_length.
    + rewrite app_nil_r. case_decide; [apply sendReply_length | simpl; lia].
  - unfold commandStage. case_decide; [| done].
    destruct (SplitN _ _ _) as [| command [| actual_content rest]];
      [done | done |].
    destruct (MsgInputHandlers reg !! command); [| done].
    apply balanced_invocation; [done |].
    case_decide; [apply sendReply_length | simpl; lia].
  - unfold attachmentStage. case_decide; [| done].
    apply balanced_range. intros k fileId.
    unfold posts, invocations.
    rewrite (filter_cons_False (fun c => isPost c)) by (simpl; tauto).
    rewrite (filter_cons_False (fun c => isInvocation c)) by (simpl; tauto).
    destruct (downloadFile_result env _ _ _); [done |].
    apply balanced_range. intros i v.
    apply balanced_invocation; [done |].
    case_decide; [apply sendReply_length | simpl; lia].
Qed.

(** ** The invocations of the exact match and of the attachment stage *)

Lemma exactCall_stage c : is_Some (exactCall c) → stageOf c = 2.
Proof. destruct c; simpl; intros [? ?]; done. Qed.

(** X5.  For an inbound message of somebody else, the exact match handler
    registered under the full text of the message is invoked once, and no
    other exact match handler is; when the text is not a key, none is. *)
Theorem exact_handler_runs_once rev env reg s event post :
  inbound env event post →
  MattermostPost.UserId post ≠ MattermostUser.Id (User s) →
  omap exactCall (handleWebSocketEvent rev env reg s event)
  = match Handlers reg !! MattermostPost.Message post with
    | Some _ => [MattermostPost.Message post]
    | None => []
    end.
Proof.
  intros Hin Hother. rewrite (handle_other _ _ _ _ _ _ Hin Hother).
  rewrite !omap_app.
  rewrite (unseen_off_stage rev env s post exactCall 2 3
             (catchallStage rev env reg s post) exactCall_stage) by (done || apply catchallStage_shape).
  rewrite (unseen_off_stage rev env s post exactCall 2 4
             (extendedStage rev env reg s post) exactCall_stage) by (done || apply extendedStage_shape).
  rewrite (unseen_off_stage rev env s post exactCall 2 5
             (commandStage rev env reg s post) exactCall_stage) by (done || apply commandStage_shape).
  rewrite (unseen_off_stage rev env s post exactCall 2 6
             (attachmentStage rev env reg s post) exactCall_stage) by (done || apply attachmentStage_shape).
  rewrite app_nil_r. unfold exactStage.
  destruct (Handlers reg !! _); [| done].
  simpl. f_equal. apply omap_reply_unseen.
  intros c Hc. by rewrite (exactCall_stage c Hc).
Qed.

Lemma exact_handler_runs_once_witness :
  omap exactCall
    (handleWebSocketEvent HttpClient
       (exampleEnv (examplePost "hello" []) noFailure)
       exampleRegistry exampleAdapter exampleEvent) = ["hello"]
  ∧ omap exactCall
      (handleWebSocketEvent HttpClient
         (exampleEnv (examplePost "hello there" []) noFailure)
         exampleRegistry exampleAdapter exampleEvent) = [].
Proof.
  split.
  - apply (exact_handler_runs_once HttpClient
             (exampleEnv (examplePost "hello" []) noFailure)
             exampleRegistry exampleAdapter exampleEvent
             (examplePost "hello" []));
      [apply exampleEvent_inbound | discriminate].
  - apply (exact_handler_runs_once HttpClient
             (exampleEnv (examplePost "hello there" []) noFailure)
             exampleRegistry exampleAdapter exampleEvent
             (examplePost "hello there" []));
      [apply exampleEvent_inbound | discriminate].
Defined.

(** X6.  For an inbound message of somebody else, the image handler
    invocations of the run are exactly these, in this order: for each file
    id of the message whose download succeeded, in the order of the file
    ids, every registered image handler in registration order, on
    [tmp/<file id>].  A file whose download failed reaches no handler. *)
Theorem image_handlers_see_downloaded_files rev env reg s event post :
  inbound env event post →
  MattermostPost.UserId post ≠ MattermostUser.Id (User s) →
  omap imageCall (handleWebSocketEvent rev env reg s event)
  = imageRuns env reg (MattermostPost.FileIds post).
Proof.
  intros Hin Hother. rewrite (handle_other _ _ _ _ _ _ Hin Hother).
  rewrite !omap_app.
  rewrite (unseen_off_stage rev env s post imageCall 6 2 _
             imageCall_stage) by (done || apply exactStage_shape).
  rewrite (unseen_off_stage rev env s post imageCall 6 3 _
             imageCall_stage) by (done || apply catchallStage_shape).
  rewrite (unseen_off_stage rev env s post imageCall 6 4 _
             imageCall_stage) by (done || apply extendedStage_shape).
  rewrite (unseen_off_stage rev env s post imageCall 6 5 _
             imageCall_stage) by (done || apply commandStage_shape).
  simpl. unfold attachmentStage, imageRuns.
  case_decide as Hlen;
    [| destruct (MattermostPost.FileIds post); [done | simpl in Hlen; lia]].
  rewrite omap_range. f_equal. apply imap_ext. intros k fileId _. simpl.
  destruct (downloadFile_result env _ _ _); [done |].
  rewrite (omap_range_one imageCall
             (fun i _ => (i, "tmp/" +:+ fileId))); [done |].
  intros i v. simpl. f_equal. case_decide; [| done].
  apply omap_reply_unseen. intros c Hc. by rewrite (imageCall_stage c Hc).
Qed.

Lemma image_handlers_see_downloaded_files_witness :
  let post := examplePost "look" ["f1"; "f2"; "f3"] in
  let failing k := bool_decide (k = 1) in
  omap imageCall
    (handleWebSocketEvent Client4 (exampleEnv post failing)
       exampleRegistry exampleAdapter exampleEvent)
  = [(0, "tmp/f1"); (0, "tmp/f3")].
Proof.
  intros post failing.
  apply (image_handlers_see_downloaded_files Client4 (exampleEnv post failing)
           exampleRegistry exampleAdapter exampleEvent post);
    [apply exampleEvent_inbound | discriminate].
Defined.

(** ** Silent handlers *)

Lemma posts_range_nil {A} (body : nat → A → list Call) l i :
  (∀ k x, l !! k = Some x → posts (body (i + k) x) = []) →
  posts (range body i l) = [].
Proof.
  revert i. induction l as [| x l IH]; intros i Hbody; [done |].
  simpl. rewrite posts_app.
  pose proof (Hbody 0 x eq_refl) as H0. rewrite Nat.add_0_r in H0.
  rewrite H0, IH; [done |].
  intros k y Hk. specialize (Hbody (S k) y Hk).
  by rewrite Nat.add_succ_r in Hbody.
Qed.

Lemma posts_skip c l : isPost c = false → posts (c :: l) = posts l.
Proof.
  intros Hc. unfold posts.
  apply (filter_cons_False (fun c => isPost c)). rewrite Hc. intros [].
Qed.

(** X7.  When the text of an inbound message is no exact match key and
    every handler that the message reaches returns the empty string (an
    extended handler: no result, or one with empty text and no image), the
    run makes no post at all. *)
Theorem silent_handlers_send_nothing rev env reg s event post :
  inbound env event post →
  silentOn reg post →
  posts (handleWebSocketEvent rev env reg s event) = [].
Proof.
  intros Hin (Hexact & Hcatch & Hext & Hcmd & Himg).
  unfold requestOf in *.
  destruct (decide (MattermostPost.UserId post = MattermostUser.Id (User s)))
    as [Hself | Hother].
  { by rewrite (handle_self _ _ _ _ _ _ Hin Hself). }
  rewrite (handle_other _ _ _ _ _ _ Hin Hother), !posts_app.
  assert (∀ l1 l2 : list Call, l1 = [] → l2 = [] → l1 ++ l2 = []) as Happ
    by (by intros ?? -> ->).
  repeat apply Happ.
  - unfold exactStage. by rewrite Hexact.
  - apply posts_range_nil. intros k v Hk. rewrite posts_skip by done.
    rewrite Forall_lookup in Hcatch. rewrite (Hcatch k v Hk).
    by rewrite decide_False by (by intros ?).
  - apply posts_range_nil. intros k v Hk. rewrite posts_skip by done.
    rewrite Forall_lookup in Hext. specialize (Hext k v Hk). simpl in Hext.
    destruct (v _) as [r |]; [| done]. destruct Hext as [Htext Himage].
    rewrite Himage, decide_False by (by intros [? _]). done.
  - unfold commandStage. rewrite SplitN_2.
    destruct (cut " " (MattermostPost.Message post)) as [[command rest] |]
      eqn:Hcut; simpl; [| done].
    destruct (MsgInputHandlers reg !! command) as [ih |] eqn:Hih; [| done].
    rewrite posts_skip by done.
    rewrite (Hcmd command rest ih eq_refl Hih).
    by rewrite decide_False by (by intros ?).
  - unfold attachmentStage. case_decide; [| done].
    apply posts_range_nil. intros k fileId Hk. rewrite posts_skip by done.
    destruct (downloadFile_result env _ _ _); [done |].
    apply posts_range_nil. intros i v Hi. rewrite posts_skip by done.
    rewrite Forall_lookup in Himg. specialize (Himg i v Hi). simpl in Himg.
    rewrite Forall_lookup in Himg. rewrite (Himg k fileId Hk).
    by rewrite decide_False by (by intros ?).
Qed.

Lemma silent_handlers_send_nothing_witness :
  posts
    (handleWebSocketEvent Client4
       (exampleEnv (examplePost "good morning" []) noFailure)
       exampleRegistry exampleAdapter exampleEvent) = [].
Proof.
  apply (silent_handlers_send_nothing Client4
           (exampleEnv (examplePost "good morning" []) noFailure)
           exampleRegistry exampleAdapter exampleEvent
           (examplePost "good morning" []));
    [apply exampleEvent_inbound |].
  split; [reflexivity |]. split; [by repeat constructor |].
  split; [by repeat constructor |]. split.
  - intros command rest ih [= <- <-]. simpl.
    rewrite lookup_insert_ne by done. by rewrite lookup_empty.
  - by repeat constructor.
Defined.

(** * More properties of the send path *)

(** X8.  [ChannelMessageSend] returns a nil error exactly when a channel
    is resolved (the argument, or else [DefaultChannel], is not empty) and
    the server accepts the post: in the first revision the request is built
    and answered with status 201 (any other status, 200 included, is an
    error), in the second [CreatePost] returns no error. *)
Theorem ChannelMessageSend_succeeds_iff rev env s channel message :
  let target := if decide (channel = "") then DefaultChannel s else channel in
  let url := ServerURL s +:+ "/api/v4/posts" in
  (∃ r, ChannelMessageSend rev env (Some s) channel message = Returned r
        ∧ err r = None)
  ↔ target ≠ ""
    ∧ match rev with
      | HttpClient =>
          http_NewRequest env url = None
          ∧ ∃ body,
              Client_Do env url ("Bearer " +:+ BotToken s)
                (<["message" := message]> (<["channel_id" := target]> ∅))
              = DoResponse 201 body
      | Client4 =>
          Client_CreatePost env
            (MattermostPost.mk "" target "" message [] "") = None
      end.
Proof.
  intros target url. unfold ChannelMessageSend. fold target. fold url.
  destruct (decide (target = "")) as [Hempty | Hres].
  { split; [intros (r & [= <-] & Herr); done | intros [? _]; done]. }
  destruct rev.
  - destruct (http_NewRequest env url) as [e |].
    { split; [intros (r & [= <-] & Herr); done | intros [_ [? _]]; done]. }
    destruct (Client_Do env url _ _) as [e | StatusCode body].
    { split; [intros (r & [= <-] & Herr); done
             | intros [_ [_ [body ?]]]; done]. }
    destruct (decide (StatusCode ≠ 201%Z)) as [Hbad | Hgood].
    + split; [intros (r & [= <-] & Herr); done |].
      intros [_ [_ [body' [= -> _]]]]. done.
    + assert (StatusCode = 201%Z) as -> by lia.
      split; [| by eexists].
      intros _. split; [done |]. split; [done |]. by exists body.
  - destruct (Client_CreatePost env _) as [e |].
    + split; [intros (r & [= <-] & Herr); done | intros [_ ?]; done].
    + split; [done | by eexists].
Qed.

(** A server that answers 200 instead of 201 makes the send fail. *)
Lemma ChannelMessageSend_succeeds_iff_witness :
  let env :=
    {| json_Unmarshal := fun _ => None;
       http_NewRequest := fun _ => None;
       Client_Do := fun _ _ _ => DoResponse 200 "{}";
       Client_CreatePost := fun _ => None;
       downloadFile_result := fun _ _ _ => None;
       getMattermostUser := fun _ _ => inr exampleBot;
       getMattermostTeams := fun _ _ _ => inr [] |} in
  (¬ ∃ r, ChannelMessageSend HttpClient env (Some exampleAdapter) "" "hi"
          = Returned r ∧ err r = None)
  ∧ ∃ r, ChannelMessageSend Client4 env (Some exampleAdapter) "" "hi"
         = Returned r ∧ err r = None.
Proof.
  intros env. split.
  - intros Hok.
    apply (ChannelMessageSend_succeeds_iff HttpClient env exampleAdapter
             "" "hi") in Hok as (_ & _ & body & Hdo).
    discriminate.
  - apply (ChannelMessageSend_succeeds_iff Client4 env exampleAdapter
             "" "hi").
    split; [discriminate | reflexivity].
Defined.

(** X9.  With a channel argument that is not empty, [ChannelMessageSend]
    does not look at [DefaultChannel]: it returns, leaves the adapter as it
    was, makes at most one call, a post of the message to the given channel,
    and returns the same error and makes the same call whatever
    [DefaultChannel] is. *)
Theorem explicit_channel_overrides_default rev env s channel message d :
  channel ≠ "" →
  ∃ r,
    ChannelMessageSend rev env (Some s) channel message = Returned r
    ∧ after r = s
    ∧ length (calls r) ≤ 1
    ∧ Forall (fun c => postedChannel c = Some channel
                       ∧ postedMessage c = Some message) (calls r)
    ∧ ChannelMessageSend rev env (Some (set_DefaultChannel d s)) channel
        message
      = Returned (mkSent (set_DefaultChannel d s) (err r) (calls r)).
Proof.
  intros Hne.
  destruct (ChannelMessageSend_resolved rev env s channel channel message)
    as (r & Hr & Hafter & Hposts & _);
    [by rewrite decide_False | done |].
  exists r. split; [exact Hr |]. split; [exact Hafter |].
  revert Hr. unfold ChannelMessageSend.
  rewrite !(decide_False (P := channel = "")) by done.
  simpl. destruct rev.
  - destruct (http_NewRequest env _);
      [intros [= <-]; simpl; split; [lia | by split] |].
    destruct (Client_Do env _ _ _); [| case_decide];
      intros [= <-]; simpl; (split; [lia | by split]).
  - destruct (Client_CreatePost env _);
      intros [= <-]; simpl; (split; [lia | by split]).
Qed.

Lemma explicit_channel_overrides_default_witness :
  ∃ r,
    ChannelMessageSend HttpClient (exampleEnv (examplePost "" []) noFailure)
      (Some exampleAdapter) "ops" "hi" = Returned r
    ∧ err r = None
    ∧ Forall (fun c => postedChannel c = Some "ops"
                       ∧ postedMessage c = Some "hi") (calls r).
Proof.
  destruct (explicit_channel_overrides_default HttpClient
              (exampleEnv (examplePost "" []) noFailure)
              exampleAdapter "ops" "hi" "")
    as (r & Hr & _ & _ & Hposts & _); [discriminate |].
  exists r. split; [exact Hr |]. split; [| exact Hposts].
  vm_compute in Hr. by injection Hr as <-.
Defined.

(** [Send] on an adapter that is not nil: it returns, and every post it
    makes carries the text and goes to [DefaultChannel]. *)
Lemma Send_posts_to_default rev env s text :
  ∃ cs,
    Send rev env (Some s) text = Returned cs
    ∧ Forall (fun c => postedChannel c = Some (DefaultChannel s)
                       ∧ postedMessage c = Some text) cs.
Proof.
  unfold Send, SendWithOptions.
  destruct (decide (DefaultChannel s = "")) as [Hunset | Hset].
  - rewrite ChannelMessageSend_unresolved by (by simpl).
    exists []. split; [reflexivity | constructor].
  - destruct (ChannelMessageSend_resolved rev env s "" (DefaultChannel s) text)
      as (r & Hr & _ & Hposts & _); [done | done |].
    rewrite Hr. exists (calls r). split; [reflexivity | exact Hposts].
Qed.

(** ** A freshly constructed adapter *)

(** X10.  An adapter that [NewMessagePlatformFromMattermost] has just
    returned has no default channel: [Send] on it makes no call (and does
    not panic) until [DefaultChannel] is set; once it is set to a non-empty
    [c], every post of [Send] goes to [c].  The adapter's own identity is the
    user the constructor looked up: the dispatcher ignores every message of
    that user. *)
Theorem fresh_adapter env token url s :
  NewMessagePlatformFromMattermost env token url = inr s →
  (∀ rev env' text, Send rev env' (Some s) text = Returned [])
  ∧ (∀ rev env' text c,
       c ≠ "" →
       ∃ cs,
         Send rev env' (Some (set_DefaultChannel c s)) text = Returned cs
         ∧ Forall (fun call => postedChannel call = Some c
                               ∧ postedMessage call = Some text) cs)
  ∧ (∀ user,
       getMattermostUser env url token = inr user →
       ∀ rev env' reg event post,
         inbound env' event post →
         MattermostPost.UserId post = MattermostUser.Id user →
         handleWebSocketEvent rev env' reg s event = []).
Proof.
  intros Hnew. unfold NewMessagePlatformFromMattermost in Hnew.
  destruct (getMattermostUser env url token) as [e | user] eqn:Huser;
    [discriminate |].
  destruct (getMattermostTeams env url token _) as [e | teams];
    [discriminate |].
  injection Hnew as <-. split; [| split].
  - intros rev env' text. unfold Send, SendWithOptions.
    by rewrite ChannelMessageSend_unresolved.
  - intros rev env' text c Hc.
    exact (Send_posts_to_default rev env' (set_DefaultChannel c _) text).
  - intros user' [= <-] rev env' reg event post Hin Hself.
    by apply (handle_self rev env' reg _ event post).
Qed.

Lemma fresh_adapter_witness :
  ∃ s,
    NewMessagePlatformFromMattermost (exampleEnv (examplePost "" []) noFailure)
      "tok" "http://mm" = inr s
    ∧ Send Client4 (exampleEnv (examplePost "" []) noFailure) (Some s) "hi"
      = Returned []
    ∧ Send Client4 (exampleEnv (examplePost "" []) noFailure)
        (Some (set_DefaultChannel "town" s)) "hi"
      = Returned [CreatePost (MattermostPost.mk "" "town" "" "hi" [] "")].
Proof.
  eexists. split; [reflexivity |].
  destruct (fresh_adapter (exampleEnv (examplePost "" []) noFailure)
              "tok" "http://mm" _ eq_refl) as (Hnone & _ & _).
  split; [apply Hnone | reflexivity].
Defined.

(** ** One [Close] *)

(** X11.  [Close] returns exactly when the stop channel is nil or still
    open.  It then leaves the stop channel closed and the connection
    closed, where there is one, and no other field changed; with a stop
    channel that is closed already it panics. *)
Theorem Close_once_closes_everything s :
  (stopSignalled s = false →
   Close s
   = Returned
       {| WebSocketConn := Conn_Close <$> WebSocketConn s;
          User := User s;
          ChannelId := MattermostMessagePlatform.ChannelId s;
          KnownUsers := KnownUsers s;
          DefaultChannel := DefaultChannel s;
          TeamId := TeamId s;
          BotToken := BotToken s;
          ServerURL := ServerURL s;
          stopChan := (fun _ => mkChan true) <$> stopChan s |})
  ∧ (stopSignalled s = true →
     Close s = Panicked "close of closed channel").
Proof.
  unfold stopSignalled, Close.
  destruct s as [conn user chans users dc team token url [[[]] |]]; simpl;
    split; intros Hstop; try discriminate; try reflexivity;
    destruct conn; reflexivity.
Qed.

Lemma Close_once_closes_everything_witness :
  (∃ s', Close exampleAdapter = Returned s'
         ∧ stopSignalled s' = true
         ∧ Close s' = Panicked "close of closed channel").
Proof.
  destruct (Close_once_closes_everything exampleAdapter) as [Hopen _].
  eexists. split; [apply Hopen; reflexivity |]. split; [reflexivity |].
  apply (Close_once_closes_everything
           (set_stopChan (Some (mkChan true)) exampleAdapter)).
  reflexivity.
Defined.

(** * Properties of [ProcessMessages] *)

Lemma HasPrefix_true s p :
  HasPrefix s p = true → s = p +:+ skip (String.length p) s.
Proof.
  revert s. induction p as [| c p IH]; intros s; simpl; [done |].
  destruct s as [| d s]; [done |]. simpl.
  destruct (Ascii.eqb_spec d c) as [-> | _]; [| done].
  intros Hp.
  change (String c s = String c (p +:+ skip (String.length p) s)).
  f_equal. by apply IH.
Qed.

Lemma HasPrefix_app p rest : HasPrefix (p +:+ rest) p = true.
Proof.
  induction p as [| c p IH]; simpl; [reflexivity |].
  by rewrite Ascii.eqb_refl.
Qed.

Lemma skip_app p rest : skip (String.length p) (p +:+ rest) = rest.
Proof. induction p as [| c p IH]; simpl; [reflexivity | exact IH]. Qed.

(** Nothing is replaced in a string in which [old] does not occur. *)
Lemma replaceLoop_absent fuel s old new n :
  (∀ a b, s ≠ a +:+ old +:+ b) → replaceLoop fuel s old new n = s.
Proof.
  revert s n. induction fuel as [| fuel IH]; intros s n Habsent; [done |].
  simpl. destruct n as [| n]; [done |].
  destruct (HasPrefix s old) eqn:Hp.
  - apply HasPrefix_true in Hp. destruct (Habsent "" _ Hp).
  - destruct s as [| c rest]; [done |]. f_equal. apply IH.
    intros a b ->. by apply (Habsent (String c a) b).
Qed.

Lemma Contains_app a sub b : Contains (a +:+ sub +:+ b) sub = true.
Proof.
  assert (∀ s, Contains s sub
               = HasPrefix s sub
                 || match s with
                    | EmptyString => false
                    | String _ rest => Contains rest sub
                    end) as Hunfold by (by intros []).
  induction a as [| c a IH].
  - change ("" +:+ sub +:+ b) with (sub +:+ b).
    by rewrite Hunfold, HasPrefix_app.
  - change (String c a +:+ sub +:+ b) with (String c (a +:+ sub +:+ b)).
    rewrite Hunfold, IH. apply orb_true_r.
Qed.

Lemma Contains_false s sub :
  Contains s sub = false → ∀ a b, s ≠ a +:+ sub +:+ b.
Proof. intros Hs a b ->. by rewrite Contains_app in Hs. Qed.

(** X12.  The websocket URL of an adapter whose server URL starts with
    "http" is that URL with the leading "http" replaced by "ws" (so https
    becomes wss), followed by "/api/v4/websocket"; a server URL in which
    "http" does not occur is used as it is. *)
Theorem wsURL_scheme s :
  (∀ rest,
     ServerURL s = "http" +:+ rest →
     wsURL s = "ws" +:+ rest +:+ "/api/v4/websocket")
  ∧ ((∀ a b, ServerURL s ≠ a +:+ "http" +:+ b) →
     wsURL s = ServerURL s +:+ "/api/v4/websocket").
Proof.
  unfold wsURL, Replace. split.
  - intros rest ->. reflexivity.
  - intros Habsent. by rewrite replaceLoop_absent.
Qed.

Lemma wsURL_scheme_witness :
  wsURL (set_DefaultChannel "" exampleAdapter) = "ws://mm/api/v4/websocket"
  ∧ wsURL {| WebSocketConn := None; User := exampleBot; ChannelId := ∅;
             KnownUsers := ∅; DefaultChannel := ""; TeamId := "";
             BotToken := "tok"; ServerURL := "mm.example.org";
             stopChan := None |}
    = "mm.example.org/api/v4/websocket".
Proof.
  split.
  - apply (proj1 (wsURL_scheme (set_DefaultChannel "" exampleAdapter))
             "://mm").
    reflexivity.
  - apply (proj2 (wsURL_scheme
             {| WebSocketConn := None; User := exampleBot; ChannelId := ∅;
                KnownUsers := ∅; DefaultChannel := ""; TeamId := "";
                BotToken := "tok"; ServerURL := "mm.example.org";
                stopChan := None |})).
    apply Contains_false. reflexivity.
Defined.

(** ** The receive loop *)

Lemma receiveLoop_stopped rev env reg s rs :
  stopSignalled s = true →
  receiveLoop rev env reg s rs = ([], StopSignalled).
Proof. intros Hstop. destruct rs; simpl; by rewrite Hstop. Qed.

(** What a loop that has not been told to stop does with the reads it is
    given. *)
Lemma receiveLoop_running rev env reg s rs :
  stopSignalled s = false →
  omap handledEvent (receiveLoop rev env reg s rs).1
  = omap eventOf (beforeClosure rs)
  ∧ Forall (fun st =>
              match st with
              | StepHandle event made =>
                  made = handleWebSocketEvent rev env reg s event
              | _ => True
              end) (receiveLoop rev env reg s rs).1
  ∧ length (filter (fun st => isRead st) (receiveLoop rev env reg s rs).1)
    = S (length (beforeClosure rs))
  ∧ (receiveLoop rev env reg s rs).2
    = if existsb isClosure rs then ClosedByPeer else StillReading.
Proof.
  intros Hrun. induction rs as [| r rs (IH1 & IH2 & IH3 & IH4)]; simpl;
    rewrite Hrun.
  - repeat split. by repeat constructor.
  - destruct r as [event | | e]; simpl.
    + destruct (receiveLoop rev env reg s rs) as [steps exit]; simpl in *.
      split; [f_equal; exact IH1 |]. split; [by repeat constructor |].
      split; [| exact IH4].
      rewrite (filter_cons_False (fun st => isRead st)) by (simpl; tauto).
      by rewrite IH3.
    + repeat split. by repeat constructor.
    + destruct (receiveLoop rev env reg s rs) as [steps exit]; simpl in *.
      split; [exact IH1 |]. split; [by repeat constructor |].
      split; [| exact IH4].
      rewrite (filter_cons_False (fun st => isRead st)) by (simpl; tauto).
      by rewrite IH3.
Qed.

(** The dispatcher does not look at the connection of the adapter. *)
Lemma handle_ignores_connection rev env reg s conn event :
  handleWebSocketEvent rev env reg (set_WebSocketConn conn s) event
  = handleWebSocketEvent rev env reg s event.
Proof. reflexivity. Qed.

(** X13.  Once [ProcessMessages] has dialled and authenticated, and as
    long as the stop channel is not closed, it handles the events it reads
    one after the other, in the order they arrive: the events handled are
    exactly the events read before the first normal closure, each one is
    dispatched by [handleWebSocketEvent], and a failed read in between only
    costs a pause; the run ends when the peer closes normally, and is blocked
    in the next read otherwise. *)
Theorem events_are_handled_in_order rev env reg sock s :
  Dial sock (wsURL s) ("Bearer " +:+ BotToken s) = None →
  WriteJSON sock (BotToken s) = None →
  stopSignalled s = false →
  omap handledEvent (ProcessMessages rev env reg sock s).1.1
  = omap eventOf (beforeClosure (reads sock))
  ∧ Forall (fun st =>
              match st with
              | StepHandle event made =>
                  made = handleWebSocketEvent rev env reg s event
              | _ => True
              end) (ProcessMessages rev env reg sock s).1.1
  ∧ (ProcessMessages rev env reg sock s).1.2
    = if existsb isClosure (reads sock)
      then ClosedByPeer else StillReading.
Proof.
  intros Hdial Hauth Hrun. unfold ProcessMessages.
  rewrite Hdial. simpl. rewrite Hauth.
  destruct (receiveLoop_running rev env reg
              (set_WebSocketConn (Some (mkConn false)) s) (reads sock))
    as (H1 & H2 & _ & H4); [exact Hrun |].
  destruct (receiveLoop rev env reg _ (reads sock)) as [steps exit].
  simpl in *. rewrite <- H1, <- H4.
  assert (Forall (fun st =>
                    match st with
                    | StepHandle event made =>
                        made = handleWebSocketEvent rev env reg s event
                    | _ => True
                    end) steps) as H2'.
  { eapply Forall_impl; [exact H2 |]. intros [] Hst; try done. }
  destruct exit; simpl; (split; [| split; [| done]]);
    rewrite ?omap_app, ?app_nil_r; try done;
    repeat constructor; try done;
    apply Forall_app_2; by repeat constructor.
Qed.

Lemma events_are_handled_in_order_witness :
  let post := examplePost "hello" [] in
  let sock :=
    {| Dial := fun _ _ => None;
       WriteJSON := fun _ => None;
       reads := [ReadFailed "unexpected EOF"; ReadEvent exampleEvent;
                 ReadClosedNormally; ReadEvent exampleEvent] |} in
  let run :=
    ProcessMessages Client4 (exampleEnv post noFailure) exampleRegistry sock
      exampleAdapter in
  omap handledEvent run.1.1 = [exampleEvent] ∧ run.1.2 = ClosedByPeer.
Proof.
  intros post sock run.
  destruct (events_are_handled_in_order Client4 (exampleEnv post noFailure)
              exampleRegistry sock exampleAdapter eq_refl eq_refl eq_refl)
    as (Hevents & _ & Hexit).
  split; [exact Hevents | exact Hexit].
Defined.

(** A [Close] that returns leaves the stop channel, if there is one,
    signalled. *)
Lemma Close_signals s0 s :
  is_Some (stopChan s0) → Close s0 = Returned s → stopSignalled s = true.
Proof.
  unfold Close, stopSignalled.
  destruct s0 as [conn user chans users dc team token url [[[]] |]]; simpl;
    intros [ch Hch]; try discriminate;
    destruct conn; intros [= <-]; reflexivity.
Qed.

(** X14.  After [Close], [ProcessMessages] reads nothing: on an adapter
    with a stop channel that [Close] has returned, a run still dials and
    authenticates, but it leaves the loop before the first read, so no event
    is handled. *)
Theorem closed_adapter_reads_nothing rev env reg sock s0 s :
  is_Some (stopChan s0) →
  Close s0 = Returned s →
  filter (fun st => isRead st) (ProcessMessages rev env reg sock s).1.1 = []
  ∧ omap handledEvent (ProcessMessages rev env reg sock s).1.1 = []
  ∧ (ProcessMessages rev env reg sock s).1.2
    ∈ [DialFailed; AuthFailed; StopSignalled].
Proof.
  intros [ch Hch] Hclose.
  assert (stopSignalled s = true) as Hstop.
  { by apply (Close_signals s0); [rewrite Hch |]. }
  unfold ProcessMessages.
  destruct (Dial sock _ _); simpl.
  { split; [done |]. split; [done |]. by left. }
  destruct (WriteJSON sock _); simpl.
  { split; [done |]. split; [done |]. right. by left. }
  rewrite receiveLoop_stopped by exact Hstop. simpl.
  split; [done |]. split; [done |]. right. right. by left.
Qed.

Lemma closed_adapter_reads_nothing_witness :
  let sock :=
    {| Dial := fun _ _ => None;
       WriteJSON := fun _ => None;
       reads := [ReadEvent exampleEvent] |} in
  let env := exampleEnv (examplePost "hello" []) noFailure in
  ∃ s,
    Close exampleAdapter = Returned s
    ∧ filter (fun st => isRead st)
        (ProcessMessages HttpClient env exampleRegistry sock s).1.1 = []
    ∧ omap handledEvent
        (ProcessMessages HttpClient env exampleRegistry sock s).1.1 = []
    ∧ (ProcessMessages HttpClient env exampleRegistry sock s).1.2
      ∈ [DialFailed; AuthFailed; StopSignalled].
Proof.
  intros sock env. eexists. split; [reflexivity |].
  apply (closed_adapter_reads_nothing HttpClient env exampleRegistry sock
           exampleAdapter).
  - by exists make_chan.
  - reflexivity.
Defined.

(** X15.  The connection of [ProcessMessages]: a run whose dial fails does
    nothing else and leaves the adapter as it was; every other run stores
    the connection in the adapter, and closes it when it returns, as its
    last step; the stop channel is never touched. *)
Theorem ProcessMessages_connection rev env reg sock s :
  stopChan (ProcessMessages rev env reg sock s).2 = stopChan s
  ∧ match (ProcessMessages rev env reg sock s).1.2 with
    | DialFailed =>
        (ProcessMessages rev env reg sock s).2 = s
        ∧ (ProcessMessages rev env reg sock s).1.1
          = [StepDial (wsURL s) ("Bearer " +:+ BotToken s)]
    | StillReading =>
        WebSocketConn (ProcessMessages rev env reg sock s).2
        = Some (mkConn false)
        ∧ StepCloseConn ∉ (ProcessMessages rev env reg sock s).1.1
    | _ =>
        WebSocketConn (ProcessMessages rev env reg sock s).2
        = Some (mkConn true)
        ∧ last (ProcessMessages rev env reg sock s).1.1 = Some StepCloseConn
    end.
Proof.
  unfold ProcessMessages.
  destruct (Dial sock _ _); simpl; [done |].
  destruct (WriteJSON sock _); simpl; [done |].
  assert (∀ rs,
            (StepCloseConn
               ∉ (receiveLoop rev env reg
                    (set_WebSocketConn (Some (mkConn false)) s) rs).1)
            ∧ ((receiveLoop rev env reg
                  (set_WebSocketConn (Some (mkConn false)) s) rs).2
               ≠ DialFailed)) as Hloop.
  { induction rs as [| r rs [IH1 IH2]]; simpl;
      destruct (stopSignalled _); simpl;
      try (split; [by intros ?%elem_of_nil | done]).
    - split; [| done]. by intros [? | ?%elem_of_nil]%elem_of_cons.
    - destruct r; simpl;
        try (destruct (receiveLoop rev env reg _ rs) as [steps exit];
             simpl in *; split; [| done];
             intros [? | [? | ?]%elem_of_cons]%elem_of_cons; done).
      split; [| done]. by intros [? | ?%elem_of_nil]%elem_of_cons. }
  destruct (Hloop (reads sock)) as [Hnone Hexit].
  destruct (receiveLoop rev env reg _ (reads sock)) as [steps exit].
  simpl in *.
  destruct exit; simpl; (split; [done |]); try done;
    try (split; [done |];
         by rewrite !app_comm_cons, last_snoc).
  split; [done |]. by intros [? | [? | ?]%elem_of_cons]%elem_of_cons.
Qed.

(** * Properties of [downloadFile] *)

(** X16.  [downloadFile] touches no file but [localFilename].  When the
    file cannot be fetched it returns the error of the fetch and leaves the
    files as they were; when it returns no error, [localFilename] holds
    exactly the bytes that were fetched. *)
Theorem downloadFile_touches_one_file rev st s fileId localFilename files :
  (∀ name, name ≠ localFilename →
           (downloadFile rev st s fileId localFilename files).2 !! name
           = files !! name)
  ∧ (∀ e, fetchFile rev st s fileId = inl e →
          downloadFile rev st s fileId localFilename files = (Some e, files))
  ∧ ((downloadFile rev st s fileId localFilename files).1 = None →
     ∃ data,
       fetchFile rev st s fileId = inr data
       ∧ (downloadFile rev st s fileId localFilename files).2
           !! localFilename = Some data).
Proof.
  unfold downloadFile. split; [| split].
  - intros name Hname. destruct (fetchFile rev st s fileId); [done |].
    destruct (os_Create st localFilename); [done |].
    destruct (file_Write st localFilename _) as [[n e] |]; simpl;
      by rewrite lookup_insert_ne.
  - by intros e ->.
  - destruct (fetchFile rev st s fileId) as [e | data]; [done |].
    destruct (os_Create st localFilename); [done |].
    destruct (file_Write st localFilename _) as [[n e] |]; [done |].
    intros _. exists data. simpl. by rewrite lookup_insert_eq.
Qed.

Lemma downloadFile_touches_one_file_witness :
  let st :=
    {| get_NewRequest := fun _ => None;
       Client_Get := fun _ _ => GetResponse 200 (inr [Byte.x89; Byte.x50]);
       Client_GetFile := fun _ => inl "not found";
       os_Create := fun _ => None;
       file_Write := fun _ _ => None |} in
  (downloadFile HttpClient st exampleAdapter "f1" "tmp/f1" ∅).2 !! "tmp/f1"
  = Some [Byte.x89; Byte.x50]
  ∧ downloadFile Client4 st exampleAdapter "f1" "tmp/f1" ∅
    = (Some "not found", ∅).
Proof.
  intros st.
  destruct (downloadFile_touches_one_file HttpClient st exampleAdapter
              "f1" "tmp/f1" ∅) as (_ & _ & Hok).
  destruct (downloadFile_touches_one_file Client4 st exampleAdapter
              "f1" "tmp/f1" ∅) as (_ & Hfail & _).
  split.
  - destruct (Hok eq_refl) as (data & Hdata & Hfile).
    injection Hdata as <-. exact Hfile.
  - apply Hfail. reflexivity.
Defined.

(** X17.  In the first revision [downloadFile] returns no error exactly
    when the request is built, the server answers with status 200 and a
    body that can be read, and the file is created and written in full; a
    response with any other status creates no file. *)
Theorem downloadFile_needs_status_200 st s fileId localFilename files :
  let url := ServerURL s +:+ "/api/v4/files/" +:+ fileId in
  ((downloadFile HttpClient st s fileId localFilename files).1 = None
   ↔ get_NewRequest st url = None
     ∧ ∃ data,
         Client_Get st url ("Bearer " +:+ BotToken s)
         = GetResponse 200 (inr data)
         ∧ os_Create st localFilename = None
         ∧ file_Write st localFilename data = None)
  ∧ (∀ StatusCode body,
       get_NewRequest st url = None →
       Client_Get st url ("Bearer " +:+ BotToken s)
       = GetResponse StatusCode body →
       StatusCode ≠ 200%Z →
       downloadFile HttpClient st s fileId localFilename files
       = (Some ("failed to download file, status " +:+ pretty StatusCode),
          files)).
Proof.
  intros url. unfold downloadFile, fetchFile. fold url. split.
  - destruct (get_NewRequest st url) as [e |].
    { split; [done | by intros [? _]]. }
    destruct (Client_Get st url _) as [e | StatusCode body].
    { split; [done | by intros [_ (data & ? & _)]]. }
    destruct (decide (StatusCode ≠ 200%Z)) as [Hbad | Hgood].
    { split; [done |]. intros [_ (data & [= -> _] & _)]. done. }
    assert (StatusCode = 200%Z) as -> by lia.
    destruct body as [e | data].
    { split; [done | by intros [_ (data & ? & _)]]. }
    destruct (os_Create st localFilename) as [e |] eqn:Hcreate.
    { split; [done |]. intros [_ (data' & [= <-] & ? & _)]. done. }
    destruct (file_Write st localFilename data) as [[n e] |] eqn:Hwrite.
    { split; [done |]. intros [_ (data' & [= <-] & _ & ?)]. congruence. }
    split; [| done]. intros _. split; [done |]. by exists data.
  - intros StatusCode body -> -> Hbad. by rewrite decide_True.
Qed.

Lemma downloadFile_needs_status_200_witness :
  let st :=
    {| get_NewRequest := fun _ => None;
       Client_Get := fun _ _ => GetResponse 404 (inr []);
       Client_GetFile := fun _ => inl "not found";
       os_Create := fun _ => None;
       file_Write := fun _ _ => None |} in
  downloadFile HttpClient st exampleAdapter "f1" "tmp/f1" ∅
  = (Some "failed to download file, status 404", ∅).
Proof.
  intros st.
  apply (proj2 (downloadFile_needs_status_200 st exampleAdapter "f1"
                  "tmp/f1" ∅) 404%Z (inr []));
    [reflexivity | reflexivity | discriminate].
Defined.

(** * Properties of the Discord bot of main.go *)

(** X18.  [messageCreate] answers in the channel of the message, at most
    once, and not at all to a message of the bot itself. *)
Theorem messageCreate_replies web self m :
  Forall (fun a =>
            ∀ channelID content,
              Discord.said a = Some (channelID, content) →
              channelID = Discord.ChannelID m)
    (Discord.messageCreate web self m)
  ∧ length (omap Discord.said (Discord.messageCreate web self m)) ≤ 1
  ∧ (Discord.AuthorID m = self → Discord.messageCreate web self m = []).
Proof.
  unfold Discord.messageCreate.
  destruct (decide (Discord.AuthorID m = self)) as [Hself | Hother].
  { split; [constructor |]. split; [simpl; lia | done]. }
  split; [| split; [| done]].
  - repeat apply Forall_app_2; repeat case_decide;
      repeat first [ destruct (Discord.http_Get web _)
                   | destruct (Discord.Decode web _) ];
      repeat constructor; simpl; congruence.
  - destruct (decide (Discord.Content m = "hello")) as [-> | ?];
      [simpl; lia |].
    destruct (decide (Discord.Content m = "o/")) as [-> | ?];
      [simpl; lia |].
    case_decide; [| simpl; lia].
    destruct (Discord.http_Get web _); [simpl; lia |].
    destruct (Discord.Decode web _); simpl; lia.
Qed.

Lemma messageCreate_replies_witness :
  let web :=
    {| Discord.http_Get := fun _ => inl "no route to host";
       Discord.Decode := fun _ => inl "unexpected end of JSON input" |} in
  Discord.messageCreate web "bot" (Discord.mkMessage "bot" "hello" "c1") = []
  ∧ length
      (omap Discord.said
         (Discord.messageCreate web "bot"
            (Discord.mkMessage "u1" "hello" "c1"))) ≤ 1.
Proof.
  intros web. split.
  - apply (messageCreate_replies web "bot"
             (Discord.mkMessage "bot" "hello" "c1")).
    reflexivity.
  - apply (messageCreate_replies web "bot"
             (Discord.mkMessage "u1" "hello" "c1")).
Defined.

(** X19.  [messageCreate] goes to the web only for the message "!stoic" of
    somebody else, and then once, to the quotes API; when the request or the
    decoding of its answer fails, nothing is said; when both succeed, the
    quote is said as body, dash, author. *)
Theorem messageCreate_stoic web self m :
  omap Discord.fetched (Discord.messageCreate web self m)
  = (if decide (Discord.AuthorID m ≠ self ∧ Discord.Content m = "!stoic")
     then [Discord.stoicURL] else [])
  ∧ (Discord.AuthorID m ≠ self →
     Discord.Content m = "!stoic" →
     omap Discord.said (Discord.messageCreate web self m)
     = match Discord.http_Get web Discord.stoicURL with
       | inl _ => []
       | inr body =>
           match Discord.Decode web body with
           | inl _ => []
           | inr quote =>
               [(Discord.ChannelID m,
                 Discord.Body quote +:+ " — " +:+ Discord.Author quote)]
           end
       end).
Proof.
  unfold Discord.messageCreate. split.
  - destruct (decide (Discord.AuthorID m ≠ self
                      ∧ Discord.Content m = "!stoic"))
      as [[Hother Hstoic] | Hno].
    + rewrite (decide_False (P := Discord.AuthorID m = self)) by done.
      rewrite Hstoic. simpl.
      destruct (Discord.http_Get web _); [done |].
      by destruct (Discord.Decode web _).
    + destruct (decide (Discord.AuthorID m = self)) as [| Hother]; [done |].
      rewrite (decide_False (P := Discord.Content m = "!stoic")) by tauto.
      by repeat case_decide.
  - intros Hother ->.
    rewrite (decide_False (P := Discord.AuthorID m = self)) by done. simpl.
    destruct (Discord.http_Get web _); [done |].
    by destruct (Discord.Decode web _).
Qed.

Lemma messageCreate_stoic_witness :
  let web :=
    {| Discord.http_Get := fun _ => inr "{}";
       Discord.Decode := fun _ =>
         inr (Discord.mkStoicResponse "1" "Waste no more time." 2
                "Marcus Aurelius") |} in
  omap Discord.said
    (Discord.messageCreate web "bot" (Discord.mkMessage "u1" "!stoic" "c1"))
  = [("c1", "Waste no more time. — Marcus Aurelius")].
Proof.
  intros web.
  apply (proj2 (messageCreate_stoic web "bot"
                  (Discord.mkMessage "u1" "!stoic" "c1")));
    [discriminate | reflexivity].
Defined.

(** * Properties of the [sendmsg] command *)




(** X21.  [sendmsg] starts a Mattermost adapter only for the platforms
    "mattermost" and "all", and only when MATTERMOST_BOT_TOKEN and
    MATTERMOST_URL are both set.  The adapter it starts has
    MATTERMOST_CHANNEL as its default channel; so when that variable is not
    set either, a send without channel fails on it with "no channel
    specified" and makes no call. *)
Theorem sendmsg_mattermost_setup env getenv platform s :
  (sendmsgMattermost env getenv platform = Started s →
   (platform = "mattermost" ∨ platform = "all")
   ∧ BotToken s = getenv "MATTERMOST_BOT_TOKEN"
   ∧ ServerURL s = getenv "MATTERMOST_URL"
   ∧ BotToken s ≠ "" ∧ ServerURL s ≠ ""
   ∧ DefaultChannel s = getenv "MATTERMOST_CHANNEL"
   ∧ (getenv "MATTERMOST_CHANNEL" = "" →
      ∀ rev env' mesg,
        ChannelMessageSend rev env' (Some s) "" mesg
        = Returned (mkSent s (Some "no channel specified") [])))
  ∧ ((platform ≠ "mattermost" ∧ platform ≠ "all")
     ∨ getenv "MATTERMOST_BOT_TOKEN" = ""
     ∨ getenv "MATTERMOST_URL" = "" →
     sendmsgMattermost env getenv platform = NotStarted).
Proof.
  unfold sendmsgMattermost. split.
  - destruct (decide (platform = "mattermost" ∨ platform = "all"))
      as [Hplatform | _]; [| done].
    destruct (decide (getenv "MATTERMOST_BOT_TOKEN" ≠ ""
                      ∧ getenv "MATTERMOST_URL" ≠ ""))
      as [[Htoken Hurl] | _]; [| done].
    unfold NewMessagePlatformFromMattermost.
    destruct (getMattermostUser env _ _) as [e | user]; [done |].
    destruct (getMattermostTeams env _ _ _) as [e | teams]; [done |].
    intros [= <-]. split; [exact Hplatform |].
    destruct (decide (getenv "MATTERMOST_CHANNEL" ≠ "")) as [Hch | Hch];
      simpl.
    + repeat (split; [done |]). intros Hnone. contradiction.
    + assert (getenv "MATTERMOST_CHANNEL" = "") as Hnone
        by (by destruct (decide (getenv "MATTERMOST_CHANNEL" = ""))).
      repeat (split; [done |]). intros _ rev env' mesg. reflexivity.
  - intros [[Hm Ha] | [Htoken | Hurl]].
    + by rewrite decide_False by (by intros [? | ?]).
    + case_decide; [| done]. by rewrite decide_False by (by intros [? _]).
    + case_decide; [| done]. by rewrite decide_False by (by intros [_ ?]).
Qed.

Lemma sendmsg_mattermost_setup_witness :
  let getenv name :=
    if decide (name = "MATTERMOST_BOT_TOKEN") then "tok"
    else if decide (name = "MATTERMOST_URL") then "http://mm"
    else "" in
  let env := exampleEnv (examplePost "" []) noFailure in
  ∃ s,
    sendmsgMattermost env getenv "all" = Started s
    ∧ DefaultChannel s = ""
    ∧ ChannelMessageSend Client4 env (Some s) "" "hi"
      = Returned (mkSent s (Some "no channel specified") [])
    ∧ sendmsgMattermost env getenv "slack" = NotStarted.
Proof.
  intros getenv env. eexists. split; [reflexivity |].
  match goal with
  | |- DefaultChannel ?s = _ ∧ _ =>
      destruct (sendmsg_mattermost_setup env getenv "all" s) as [Hstarted _]
  end.
  destruct (Hstarted eq_refl) as (_ & _ & _ & _ & _ & Hdefault & Hfail).
  split; [exact Hdefault |]. split; [by apply Hfail |].
  apply (sendmsg_mattermost_setup env getenv "slack" exampleAdapter).
  left. split; discriminate.
Defined.
